(** * K-FAC Fisher blocks: a shallow embedding of [kfac/python/ops/fisher_blocks.py]

    The development follows the layout of the Python module: damping
    utilities, the Kronecker-product block family, the depthwise filter
    adapters, [num_conv_locations], the tower/use normalisation of
    [_process_data], and the temporal series block.

    Conventions.
    - A Python call either returns a value or raises; it is embedded as a
      value of [result], whose [Raise] constructor carries the exception
      class.
    - Tensor entries are exact real numbers extended with the IEEE special
      values that TensorFlow produces where real arithmetic is undefined
      (division by zero, square root of a negative number).  Rounding,
      overflow and the sign of zero are not modelled.
    - Python integers are [Z] (or [nat] where the value is a length). *)

From Stdlib Require Import Reals Lra Lia ZArith QArith String Bool Arith List.
Import ListNotations.

(** ** Python outcomes *)

Inductive exn : Type :=
| ValueError
| IndexError
| TypeError
| NotImplementedError
| AssertionError
| ZeroDivisionError.

Inductive result (A : Type) : Type :=
| Ok (a : A)
| Raise (e : exn).

Arguments Ok {A} a.
Arguments Raise {A} e.

Definition bind {A B : Type} (r : result A) (k : A -> result B) : result B :=
  match r with
  | Ok a => k a
  | Raise e => Raise e
  end.

Notation "x <- r ;; k" := (bind r (fun x => k))
  (at level 61, r at next level, right associativity).
Notation "' p <- r ;; k" := (bind r (fun x => match x with p => k end))
  (at level 61, p pattern, r at next level, right associativity).

Definition raises {A : Type} (r : result A) : Prop :=
  exists e, r = Raise e.

(** [range n] is Python's [range(n)]. *)
Definition range (n : nat) : list nat := seq 0 n.

(** ** Tensor entries *)

Module TFloat.

Local Open Scope R_scope.

Inductive tfloat : Type :=
| Fin (r : R)
| PInf
| NInf
| NaN.

Inductive sgn : Type := Neg | Zero | Pos.

Definition sgn_of (r : R) : sgn :=
  if Rlt_dec r 0 then Neg else if Rlt_dec 0 r then Pos else Zero.

Definition sgn_opp (s : sgn) : sgn :=
  match s with Neg => Pos | Zero => Zero | Pos => Neg end.

(** An infinity of the given sign; [inf * 0] and [0 / 0] have no sign and
    are [NaN]. *)
Definition inf_of_sgn (s : sgn) : tfloat :=
  match s with Neg => NInf | Zero => NaN | Pos => PInf end.

Definition fneg (x : tfloat) : tfloat :=
  match x with
  | Fin a => Fin (- a)
  | PInf => NInf
  | NInf => PInf
  | NaN => NaN
  end.

Definition fadd (x y : tfloat) : tfloat :=
  match x, y with
  | NaN, _ | _, NaN => NaN
  | Fin a, Fin b => Fin (a + b)
  | PInf, NInf | NInf, PInf => NaN
  | PInf, _ | _, PInf => PInf
  | NInf, _ | _, NInf => NInf
  end.

Definition fsub (x y : tfloat) : tfloat := fadd x (fneg y).

Definition fmul (x y : tfloat) : tfloat :=
  match x, y with
  | NaN, _ | _, NaN => NaN
  | Fin a, Fin b => Fin (a * b)
  | Fin a, PInf | PInf, Fin a => inf_of_sgn (sgn_of a)
  | Fin a, NInf | NInf, Fin a => inf_of_sgn (sgn_opp (sgn_of a))
  | PInf, PInf | NInf, NInf => PInf
  | PInf, NInf | NInf, PInf => NInf
  end.

Definition fdiv (x y : tfloat) : tfloat :=
  match x, y with
  | NaN, _ | _, NaN => NaN
  | Fin a, Fin b =>
      if Req_dec_T b 0 then inf_of_sgn (sgn_of a) else Fin (a / b)
  | Fin _, PInf | Fin _, NInf => Fin 0
  | PInf, Fin b => if Rlt_dec b 0 then NInf else PInf
  | NInf, Fin b => if Rlt_dec b 0 then PInf else NInf
  | PInf, PInf | PInf, NInf | NInf, PInf | NInf, NInf => NaN
  end.

Definition fsqrt (x : tfloat) : tfloat :=
  match x with
  | Fin a => if Rlt_dec a 0 then NaN else Fin (sqrt a)
  | PInf => PInf
  | NInf => NaN
  | NaN => NaN
  end.

(** [x ** n] for a non-negative integer exponent. *)
Fixpoint fpow (x : tfloat) (n : nat) : tfloat :=
  match n with
  | O => Fin 1
  | S k => fmul x (fpow x k)
  end.

(** [math_ops.equal] on two entries. *)
Definition feqb (x y : tfloat) : bool :=
  match x, y with
  | Fin a, Fin b => if Req_dec_T a b then true else false
  | PInf, PInf | NInf, NInf => true
  | _, _ => false
  end.

(** [math_ops.cast] of a boolean to a floating type. *)
Definition of_bool (b : bool) : tfloat := if b then Fin 1 else Fin 0.

Definition of_nat (n : nat) : tfloat := Fin (INR n).
Definition of_Z (z : Z) : tfloat := Fin (IZR z).

(** [math_ops.reduce_sum] over a flat list of entries. *)
Definition fsum (l : list tfloat) : tfloat := fold_left fadd l (Fin 0).

Definition finite (x : tfloat) : Prop := exists r, x = Fin r.

End TFloat.

Import TFloat.

(** ** Covariance tensors

    A tensor is its static shape and its entries in row-major order. *)

Record tensor : Type := mkTensor {
  shape : list nat;
  data : list tfloat
}.

Definition rank (t : tensor) : nat := length (shape t).

(** [t.shape.as_list()[0]] *)
Definition shape0 (t : tensor) : result nat :=
  match shape t with
  | [] => Raise IndexError
  | n :: _ => Ok n
  end.

(** [math_ops.trace] on a rank-2 tensor of shape [[r; c]]: the sum of the
    entries at positions [(i, i)]. *)
Definition matrix_trace (r c : nat) (d : list tfloat) : tfloat :=
  fsum (map (fun i => nth (i * c + i) d (Fin 0)) (range (Nat.min r c))).

Module Damping.

Local Open Scope string_scope.

Definition PI_OFF_NAME : string := "off".
Definition PI_TRACENORM_NAME : string := "tracenorm".

(** The local function [_trace] of [compute_pi_tracenorm]. *)
Definition _trace (cov : tensor) : result tfloat :=
  match shape cov with
  | [_] => Ok (fsum (data cov))
  | [r; c] => Ok (matrix_trace r c (data cov))
  | _ => Raise ValueError
  end.

Definition compute_pi_tracenorm (left_cov right_cov : tensor) : result tfloat :=
  tl <- _trace left_cov ;;
  n <- shape0 right_cov ;;
  let left_norm := fmul tl (of_nat n) in
  tr <- _trace right_cov ;;
  m <- shape0 left_cov ;;
  let right_norm := fmul tr (of_nat m) in
  Ok (fsqrt (fdiv left_norm right_norm)).

(** [PI_TYPE] is a module-level global; it is passed explicitly.  A Python
    function whose body falls off the end returns [None]. *)
Definition compute_pi_adjusted_damping (PI_TYPE : string)
    (left_cov right_cov : tensor) (damping : tfloat)
  : result (option (tfloat * tfloat)) :=
  if String.eqb PI_TYPE PI_TRACENORM_NAME then
    pi <- compute_pi_tracenorm left_cov right_cov ;;
    Ok (Some (fmul damping pi, fdiv damping pi))
  else if String.eqb PI_TYPE PI_OFF_NAME then
    Ok (Some (damping, damping))
  else
    Ok None.

(** The trace as the specification words it: the sum of the entries of a
    diagonal representation, the sum of the diagonal of a full matrix. *)
Definition spec_trace (cov : tensor) : tfloat :=
  match shape cov with
  | [r; c] => matrix_trace r c (data cov)
  | _ => fsum (data cov)
  end.

(** The dimension of a covariance: its leading extent. *)
Definition dim (cov : tensor) : nat := hd O (shape cov).

(** The value of pi as the specification words it. *)
Definition spec_pi (A B : tensor) : tfloat :=
  fsqrt (fdiv (fmul (spec_trace A) (of_nat (dim B)))
              (fmul (spec_trace B) (of_nat (dim A)))).

(** [c * I_m] as a full matrix and as a diagonal vector. *)
Definition scaled_identity_full (c : R) (m : nat) : tensor :=
  {| shape := [m; m];
     data := concat (map (fun i =>
               map (fun j => if Nat.eqb i j then Fin c else Fin 0%R) (range m))
               (range m)) |}.

Definition scaled_identity_diag (c : R) (m : nat) : tensor :=
  {| shape := [m]; data := repeat (Fin c) m |}.

(** A zero covariance and a unit covariance, both diagonal of dimension one. *)
Definition zero_cov : tensor := {| shape := [1%nat]; data := [Fin 0%R] |}.
Definition unit_cov : tensor := {| shape := [1%nat]; data := [Fin 1%R] |}.

Definition is_scaled_identity (c : R) (m : nat) (t : tensor) : Prop :=
  t = scaled_identity_full c m \/ t = scaled_identity_diag c m.

End Damping.

(** ** Matrices

    A rank-2 tensor handled by the linear-algebra code is a list of rows.
    The operations below stand for the host library's [transpose],
    [matmul], broadcasting arithmetic and [utils.kronecker_product]; they
    assume operands of compatible shapes, as the graph-construction shape
    checks of the host library are not modelled. *)

Module Matrix.

Local Open Scope nat_scope.

Definition vector : Type := list tfloat.
Definition matrix : Type := list vector.

Definition ncols (m : matrix) : nat :=
  match m with
  | [] => O
  | r :: _ => length r
  end.

Definition column (j : nat) (m : matrix) : vector :=
  map (fun row => nth j row (Fin 0%R)) m.

Definition transpose (m : matrix) : matrix :=
  map (fun j => column j m) (range (ncols m)).

Fixpoint zip_with {A B C : Type} (f : A -> B -> C)
    (xs : list A) (ys : list B) : list C :=
  match xs, ys with
  | x :: xs', y :: ys' => f x y :: zip_with f xs' ys'
  | _, _ => []
  end.

Definition dot (u v : vector) : tfloat := fsum (zip_with fmul u v).

Definition matmul (a b : matrix) : matrix :=
  map (fun row => map (fun j => dot row (column j b)) (range (ncols b))) a.

(** Entry-wise arithmetic on two matrices of one shape. *)
Definition map2 (f : tfloat -> tfloat -> tfloat) (a b : matrix) : matrix :=
  zip_with (zip_with f) a b.

Definition msub : matrix -> matrix -> matrix := map2 fsub.
Definition mmul : matrix -> matrix -> matrix := map2 fmul.
Definition mdiv : matrix -> matrix -> matrix := map2 fdiv.

Definition mmap (f : tfloat -> tfloat) (a : matrix) : matrix :=
  map (map f) a.


(** [reshape(u, [len(u), -1]) * v]: the column [u] broadcast against the
    row [v]. *)
Definition outer (u v : vector) : matrix :=
  map (fun x => map (fun y => fmul x y) v) u.

Definition entry (m : matrix) (i j : nat) : tfloat :=
  nth j (nth i m []) (Fin 0%R).

(** Modelled from the spec: [utils.kronecker_product], which lives in the
    package's [utils] module and is written [kron] by the specification:
    the block matrix whose block [(i, j)] is [a[i][j] * b]. *)
Definition kronecker_product (a b : matrix) : matrix :=
  concat (map (fun arow =>
    map (fun brow => concat (map (fun x => map (fun y => fmul x y) brow) arow)) b)
    a).

End Matrix.

Import Matrix.

(** ** The Kronecker-product block family *)

Module Kronecker.

Local Open Scope nat_scope.


(** The attributes of a block that [full_fisher_block] reads, once
    [instantiate_factors] has run: what the two factors' [get_cov()]
    return, when both are matrices, and the counts kept by the
    convolutional and multi-use variants. *)
Record block : Type := mkBlock {
  input_cov : matrix;
  output_cov : matrix;
  _num_locations : Z;
  _num_uses : nat
}.





(** A block with one-by-one unit covariances, two locations and three
    uses. *)
Definition example_block : block :=
  {| input_cov := [[Fin 1%R]];
     output_cov := [[Fin 1%R]];
     _num_locations := 2%Z;
     _num_uses := 3 |}.

End Kronecker.

(** ** The temporal series block *)

Module Series.

Local Open Scope Z_scope.

(** [SeriesFBApproximation]: an [IntEnum] with [option1 = 1], [option2 = 2]. *)
Definition option1 : Z := 1.
Definition option2 : Z := 2.

Inductive quants : Type := Option1Quants | Option2Quants.

(** A [FullyConnectedSeriesFB] after [instantiate_factors]: the chosen
    option, the number of uses, what the two factors hand back from
    [get_option1quants] and [get_option2quants], and the quantities each
    factor has been asked to register so far. *)
Record block : Type := mkBlock {
  _option : Z;
  _num_uses : nat;
  input_option1quants : matrix * vector;
  output_option1quants : matrix * vector;
  input_option2quants : matrix * matrix * vector;
  output_option2quants : matrix * matrix * vector;
  input_registered : list quants;
  output_registered : list quants
}.

Definition _num_timesteps (b : block) : nat := _num_uses b.

Definition register (q : quants) (b : block) : block :=
  {| _option := _option b;
     _num_uses := _num_uses b;
     input_option1quants := input_option1quants b;
     output_option1quants := output_option1quants b;
     input_option2quants := input_option2quants b;
     output_option2quants := output_option2quants b;
     input_registered := input_registered b ++ [q];
     output_registered := output_registered b ++ [q] |}.

(** [exp != -1] on a Python number. *)
Definition is_inverse (exp : Q) : bool := Qeq_bool exp (-1 # 1).

Definition register_matpower (b : block) (exp : Q) : result block :=
  if negb (is_inverse exp) then Raise NotImplementedError
  else if _option b =? option1 then Ok (register Option1Quants b)
  else if _option b =? option2 then Ok (register Option2Quants b)
  else Raise ValueError.

(** The local function [gamma] of [multiply_matpower], on one entry. *)
Definition gamma (T : nat) (x : tfloat) : tfloat :=
  fdiv (fpow (fsub (Fin 1%R) x) 2)
       (fsub (fmul (of_nat T) (fsub (Fin 1%R) (fpow x 2)))
             (fmul (fmul (Fin 2%R) x) (fsub (Fin 1%R) (fpow x T)))).

Definition option1_apply (b : block) (Z0 : matrix) : matrix :=
  let '(L_A, psi_A) := input_option1quants b in
  let '(L_G, psi_G) := output_option1quants b in
  let Y := mmap (gamma (_num_timesteps b)) (outer psi_G psi_A) in
  let Z1 := matmul (transpose L_G) (matmul Z0 L_A) in
  let Z2 := mmul Z1 Y in
  matmul L_G (matmul Z2 (transpose L_A)).

(** [tmp = 1.0 - reshape(mu_G, [n, -1]) * mu_A] *)
Definition option2_tmp (mu_G mu_A : vector) : matrix :=
  mmap (fun p => fsub (Fin 1%R) p) (outer mu_G mu_A).

(** [tmp += 1.0 * cast(equal(tmp, 0.0))], on one entry. *)
Definition guard_zero (t : tfloat) : tfloat :=
  fadd t (fmul (Fin 1%R) (of_bool (feqb t (Fin 0%R)))).

Definition option2_denominator (mu_G mu_A : vector) : matrix :=
  mmap guard_zero (option2_tmp mu_G mu_A).

(** The first half of Option 2: [Z -= P_G * Z * P_A^T], then
    [Z = K_G^T * Z * K_A]. *)
Definition option2_project (b : block) (Z0 : matrix) : matrix :=
  let '(P_A, K_A, _) := input_option2quants b in
  let '(P_G, K_G, _) := output_option2quants b in
  let Z1 := msub Z0 (matmul P_G (matmul Z0 (transpose P_A))) in
  matmul (transpose K_G) (matmul Z1 K_A).

(** [Z /= tmp], after the zeros of [tmp] have been replaced. *)
Definition option2_divide (b : block) (Z2 : matrix) : matrix :=
  let '(_, _, mu_A) := input_option2quants b in
  let '(_, _, mu_G) := output_option2quants b in
  mdiv Z2 (option2_denominator mu_G mu_A).

(** The second half of Option 2: [Z = K_G * Z * K_A^T], then
    [Z -= P_G^T * Z * P_A]. *)
Definition option2_unproject (b : block) (Z3 : matrix) : matrix :=
  let '(P_A, K_A, _) := input_option2quants b in
  let '(P_G, K_G, _) := output_option2quants b in
  let Z4 := matmul K_G (matmul Z3 (transpose K_A)) in
  msub Z4 (matmul (transpose P_G) (matmul Z4 P_A)).

(** Option 2 up to, and without, the final normalisation by the number of
    time-steps. *)
Definition option2_unnormalized (b : block) (Z0 : matrix) : matrix :=
  option2_unproject b (option2_divide b (option2_project b Z0)).

Definition option2_apply (b : block) (Z0 : matrix) : matrix :=
  mmap (fun z => fdiv z (of_nat (_num_timesteps b))) (option2_unnormalized b Z0).

(** [multiply_matpower]. The parameter is a single weight matrix, on which
    [utils.layer_params_to_mat2d] and [utils.mat2d_to_layer_params] are the
    identity. *)
Definition multiply_matpower (b : block) (vector : matrix) (exp : Q)
  : result matrix :=
  if negb (is_inverse exp) then Raise NotImplementedError
  else
    let Z0 := transpose vector in
    let Z1 :=
      if _option b =? option1 then option1_apply b Z0
      else if _option b =? option2 then option2_apply b Z0
      else Z0 in
    Ok (transpose Z1).

(** An Option 2 block over one-by-one matrices, four time-steps long, in
    which both decay vectors are [[1]], so that [1 - mu_G * mu_A] is zero. *)
Definition example_block : block :=
  {| _option := option2;
     _num_uses := 4;
     input_option1quants := ([[Fin 1%R]], [Fin 0%R]);
     output_option1quants := ([[Fin 1%R]], [Fin 0%R]);
     input_option2quants := ([[Fin 0%R]], [[Fin 1%R]], [Fin 1%R]);
     output_option2quants := ([[Fin 0%R]], [[Fin 1%R]], [Fin 1%R]);
     input_registered := [];
     output_registered := [] |}.



End Series.

(** ** [num_conv_locations] *)

Module ConvLocations.

Local Open Scope Z_scope.

(** A 64-bit signed integer: numpy's default integer type. *)
Definition fits64 (z : Z) : Prop := - 2 ^ 63 <= z < 2 ^ 63.

(** Wrap-around of an integer into the 64-bit signed range. *)
Definition wrap64 (z : Z) : Z := (z + 2 ^ 63) mod 2 ^ 64 - 2 ^ 63.

(** A numpy scalar.  [NpInt z] is the 64-bit integer [z]; [NpFloat z] is
    a double holding the integral value [z] (the conversion of a 64-bit
    integer to a double is taken to be exact); [NpNonFinite] is a double
    that is not a finite number, which is what a floor division of a
    double by zero gives (a NaN or an infinity, depending on the numpy
    version). *)
Inductive npnum : Type :=
| NpInt (z : Z)
| NpFloat (z : Z)
| NpNonFinite.

(** [np.prod] of a list of Python integers, each within the 64-bit
    range.  The list becomes a 64-bit integer array, whose product wraps
    around silently; the empty list becomes an array of doubles, whose
    product is [1.0]. *)
Definition np_prod (l : list Z) : npnum :=
  match l with
  | [] => NpFloat 1
  | _ :: _ => NpInt (wrap64 (fold_left Z.mul l 1))
  end.

(** [a // b] on numpy scalars.  On two integers it is floor division in
    64 bits, with [0] for a zero divisor; once a double is involved the
    result is a double. *)
Definition floor_divide (a b : npnum) : npnum :=
  match a, b with
  | NpInt x, NpInt y => NpInt (if y =? 0 then 0 else wrap64 (x / y))
  | NpInt x, NpFloat y | NpFloat x, NpInt y | NpFloat x, NpFloat y =>
      if y =? 0 then NpNonFinite else NpFloat (x / y)
  | NpNonFinite, _ | _, NpNonFinite => NpNonFinite
  end.

(** The Python slice [l[1:-1]]. *)
Definition slice_1_m1 {A : Type} (l : list A) : list A :=
  firstn (length l - 1 - 1)%nat (skipn 1 l).

(** [strides] is a list of integers or [None]; the divisor [1] of the
    [None] case is a Python integer, which takes the type of the other
    operand. *)
Definition num_conv_locations (input_shape : list Z)
    (strides : option (list Z)) : npnum :=
  let spatial_input_locations := np_prod (slice_1_m1 input_shape) in
  let spatial_strides_divisor :=
    match strides with
    | None => NpInt 1
    | Some s => np_prod s
    end in
  floor_divide spatial_input_locations spatial_strides_divisor.

(** The spatial dimensions of an input shape
    [[batch; ..spatial..; channels]]. *)
Definition spatial_dims (input_shape : list Z) : list Z :=
  removelast (tl input_shape).

(** The product of a list of integers, as the specification's [prod]. *)
Definition prod (l : list Z) : Z := fold_right Z.mul 1 l.

End ConvLocations.

(** ** Depthwise filter adapters *)

Module Depthwise.

Local Open Scope nat_scope.

(** A rank-4 filter: its static shape and its entries, indexed
    [[height][width][in_channel][last axis]]. *)
Definition data4 : Type := list (list (list (list tfloat))).

Record filter4 : Type := mkFilter {
  fshape : nat * nat * nat * nat;
  fdata : data4
}.

Definition well_formed (f : filter4) : Prop :=
  let '(h, w, c, m) := fshape f in
  length (fdata f) = h /\
  Forall (fun plane => length plane = w /\
    Forall (fun chans => length chans = c /\
      Forall (fun row => length row = m) chans) plane) (fdata f).

(** [array_ops.zeros([a, b, c, d])] *)
Definition zeros (a b c d : nat) : data4 :=
  repeat (repeat (repeat (repeat (Fin 0%R) d) c) b) a.

(** [filter[:, :, i:(i + 1), :]] *)
Definition slice_channel (i : nat) (x : data4) : data4 :=
  map (map (fun chans => firstn 1 (skipn i chans))) x.

(** [array_ops.concat(ts, axis=-2)] on tensors of leading shape [[h; w]]:
    at each position the channel lists are joined. *)
Definition concat_axis2 (h w : nat) (ts : list data4) : data4 :=
  map (fun y => map (fun x =>
    concat (map (fun t => nth x (nth y t []) []) ts)) (range w)) (range h).

(** [array_ops.concat(ts, axis=-1)] on tensors of leading shape
    [[h; w; c]]: at each position the innermost rows are joined. *)
Definition concat_axis3 (h w c : nat) (ts : list data4) : data4 :=
  map (fun y => map (fun x => map (fun k =>
    concat (map (fun t => nth k (nth x (nth y t []) []) []) ts))
    (range c)) (range w)) (range h).

(** The body of the loop of [depthwise_conv2d_filter_to_conv2d_filter] for
    input channel [i]. *)
Definition in_channel (h w c m : nat) (x : data4) (i : nat) : data4 :=
  let elements :=
    (if Nat.ltb 0 i then [zeros h w i m] else []) ++
    [slice_channel i x] ++
    (if Nat.ltb (i + 1) c then [zeros h w (c - (i + 1)) m] else []) in
  concat_axis2 h w elements.

(** [array_ops.concat] rejects an empty list of tensors. *)
Definition depthwise_conv2d_filter_to_conv2d_filter (f : filter4)
  : result filter4 :=
  let '(filter_height, filter_width, in_channels, channel_multiplier) :=
    fshape f in
  let results :=
    map (in_channel filter_height filter_width in_channels channel_multiplier
           (fdata f)) (range in_channels) in
  match results with
  | [] => Raise ValueError
  | _ =>
      Ok {| fshape := (filter_height, filter_width, in_channels,
                       in_channels * channel_multiplier);
            fdata := concat_axis3 filter_height filter_width in_channels
                       results |}
  end.

(** [array_ops.reshape] of the last axis, of length [c * m], into [[c; m]]:
    block [k] is the [m] entries from position [k * m]. *)
Definition split_last (c m : nat) (row : list tfloat) : list (list tfloat) :=
  map (fun k => firstn m (skipn (k * m) row)) (range c).

(** [reshape(filter[:, :, i, i, :], [h, w, 1, m])] on the reshaped filter. *)
Definition diagonal_slice (c m : nat) (x : data4) (i : nat) : data4 :=
  map (map (fun chans => [nth i (split_last c m (nth i chans [])) []])) x.

Definition conv2d_filter_to_depthwise_conv2d_filter (f : filter4)
  : result filter4 :=
  let '(filter_height, filter_width, in_channels, out_channels) := fshape f in
  if Nat.eqb in_channels 0 then Raise ZeroDivisionError
  else if negb (Nat.eqb (out_channels mod in_channels) 0) then Raise ValueError
  else
    let channel_multiplier := out_channels / in_channels in
    let results :=
      map (diagonal_slice in_channels channel_multiplier (fdata f))
          (range in_channels) in
    Ok {| fshape := (filter_height, filter_width, in_channels,
                     channel_multiplier);
          fdata := concat_axis2 filter_height filter_width results |}.

(** Entry [(y, x, j, o)] of a filter. *)
Definition entry4 (f : filter4) (y x j o : nat) : tfloat :=
  nth o (nth j (nth x (nth y (fdata f) []) []) []) (Fin 0%R).

(** A one-by-one depthwise filter over two input channels, with channel
    multiplier one. *)
Definition example_filter : filter4 :=
  {| fshape := (1, 1, 2, 1);
     fdata := [[[[Fin 1%R]; [Fin 2%R]]]] |}.

End Depthwise.

(** ** Tower and use normalisation *)

Module Towers.

Local Open Scope nat_scope.
Local Open Scope string_scope.

(** The Python values that [_process_data] receives and builds: tensors
    (opaque, named by a number), lists, tuples, and the
    [utils.PartitionedTensor] wrapper around a list of tensors. *)
#[warnings="-register-all"]
Inductive pyobj : Type :=
| Tensor (id : nat)
| PyList (items : list pyobj)
| PyTuple (items : list pyobj)
| PartitionedTensor (parts : list pyobj).

(** [isinstance(o, (list, tuple))] *)
Definition is_sequence (o : pyobj) : bool :=
  match o with
  | PyList _ | PyTuple _ => true
  | _ => false
  end.

Definition items_of (o : pyobj) : list pyobj :=
  match o with
  | PyList l | PyTuple l => l
  | _ => []
  end.

(** [len(o)]; a tensor has no length. *)
Definition py_len (o : pyobj) : result nat :=
  match o with
  | PyList l | PyTuple l => Ok (length l)
  | _ => Raise TypeError
  end.

(** [l[0]] *)
Definition first {A : Type} (l : list A) : result A :=
  match l with
  | [] => Raise IndexError
  | x :: _ => Ok x
  end.

(** [nest.flatten]: the leaves of a nest of lists and tuples, in order. *)
Fixpoint flatten (o : pyobj) : list pyobj :=
  match o with
  | PyList l | PyTuple l => flat_map flatten l
  | _ => [o]
  end.

(** [zip] of the unpacked list [ls]: as many tuples as the shortest
    list is long. *)
Definition py_zip (ls : list (list pyobj)) : list pyobj :=
  match ls with
  | [] => []
  | l :: rest =>
      let n := fold_left Nat.min (map (@length pyobj) rest) (length l) in
      map (fun i => PyTuple (map (fun l' => nth i l' (Tensor 0)) ls)) (range n)
  end.

(** [all(len(x) == num_uses for x in l)]: stops at the first mismatch. *)
Fixpoint all_len_eq (num_uses : nat) (l : list pyobj) : result bool :=
  match l with
  | [] => Ok true
  | x :: rest =>
      k <- py_len x ;;
      if Nat.eqb k num_uses then all_len_eq num_uses rest else Ok false
  end.

(** [utils.PartitionedTensor(tensors)], which rejects an empty list.  The
    tensors it is given are taken to agree in type and in their shape
    beyond the batch dimension, which it checks too. *)
Definition partitioned (tensors : list pyobj) : result pyobj :=
  match tensors with
  | [] => Raise ValueError
  | _ :: _ => Ok (PartitionedTensor tensors)
  end.

(** [tuple(f(x) for x in l)]: the elements are built in order, and the
    first exception ends the construction. *)
Fixpoint map_result {A B : Type} (f : A -> result B) (l : list A)
  : result (list B) :=
  match l with
  | [] => Ok []
  | x :: rest =>
      y <- f x ;;
      ys <- map_result f rest ;;
      Ok (y :: ys)
  end.

Module InputOutputMultiTower.

(** [fisher_factors.TOWER_STRATEGY] and [self._inputs] are passed
    explicitly. *)
Definition _process_data (TOWER_STRATEGY : string)
    (inputs : list pyobj) (grads_list : list (list pyobj))
  : result (pyobj * pyobj) :=
  if String.eqb TOWER_STRATEGY "concat" then
    merged <- partitioned inputs ;;
    grads_list' <- map_result (fun grads =>
                                 g <- partitioned grads ;;
                                 Ok (PyTuple [g]))
                              grads_list ;;
    Ok (PyTuple [merged], PyTuple grads_list')
  else if String.eqb TOWER_STRATEGY "separate" then
    Ok (PyTuple inputs, PyTuple (map PyList grads_list))
  else Raise ValueError.

End InputOutputMultiTower.

Module InputOutputMultiTowerMultiUse.

(** The update of [self._num_uses] once a count has been read off the
    data. *)
Definition set_num_uses (_num_uses : option nat) (num_uses : nat)
  : result (option nat) :=
  match _num_uses with
  | Some k => if negb (Nat.eqb k num_uses) then Raise ValueError
              else Ok (Some num_uses)
  | None => Ok (Some num_uses)
  end.

(** The first half of [_process_data]: [self._inputs]. *)
Definition process_inputs (TOWER_STRATEGY : string) (_num_uses : option nat)
    (inputs : list pyobj) : result (pyobj * option nat) :=
  i0 <- first inputs ;;
  if is_sequence i0 then
    let num_uses := length (items_of i0) in
    nu <- set_num_uses _num_uses num_uses ;;
    same <- all_len_eq num_uses inputs ;;
    if negb same then Raise ValueError
    else if String.eqb TOWER_STRATEGY "concat" then
      let zipped := PyTuple (py_zip (map items_of inputs)) in
      merged <- partitioned (flatten zipped) ;;
      Ok (PyTuple [merged], nu)
    else if String.eqb TOWER_STRATEGY "separate" then
      inputs' <- map_result (fun input_ => partitioned (items_of input_))
                            inputs ;;
      Ok (PyTuple inputs', nu)
    else Raise ValueError
  else Ok (PyList inputs, _num_uses).

(** The second half: [grads_list]. *)
Definition process_grads (TOWER_STRATEGY : string) (_num_uses : option nat)
    (grads_list : list (list pyobj)) : result (pyobj * option nat) :=
  g0 <- first grads_list ;;
  g00 <- first g0 ;;
  if is_sequence g00 then
    let num_uses := length (items_of g00) in
    nu <- set_num_uses _num_uses num_uses ;;
    same <- all_len_eq num_uses (concat grads_list) ;;
    if negb same then Raise ValueError
    else if String.eqb TOWER_STRATEGY "concat" then
      grads_list' <-
        map_result (fun grads =>
                      g <- partitioned
                             (flatten (PyTuple (py_zip (map items_of grads)))) ;;
                      Ok (PyTuple [g]))
                   grads_list ;;
      Ok (PyTuple grads_list', nu)
    else if String.eqb TOWER_STRATEGY "separate" then
      grads_list' <-
        map_result (fun grads =>
                      gs <- map_result
                              (fun grad => partitioned (items_of grad)) grads ;;
                      Ok (PyTuple gs))
                   grads_list ;;
      Ok (PyTuple grads_list', nu)
    else Raise ValueError
  else Ok (PyList (map PyList grads_list), _num_uses).

(** [_process_data]: the processed inputs and gradients, and the value
    left in [self._num_uses]. *)
Definition _process_data (TOWER_STRATEGY : string) (_num_uses : option nat)
    (inputs : list pyobj) (grads_list : list (list pyobj))
  : result (pyobj * pyobj * option nat) :=
  '(inputs', nu1) <- process_inputs TOWER_STRATEGY _num_uses inputs ;;
  '(grads_list', nu2) <- process_grads TOWER_STRATEGY nu1 grads_list ;;
  match nu2 with
  | None => Raise ValueError
  | Some _ => Ok (inputs', grads_list', nu2)
  end.

End InputOutputMultiTowerMultiUse.

End Towers.

(** ** Damping thunks

    [normalize_damping], the memoizable thunk [PackagedFunc], and the
    damping set-up of the diagonal convolution block and of the
    Kronecker-product blocks. *)

Module DampingSetup.

Import Damping.
Local Open Scope string_scope.

(** The elements of a thunk's identity: strings, floats and integers. *)
Inductive id_elt : Type :=
| IdStr (s : string)
| IdNum (x : tfloat)
| IdInt (z : Z).

(** What a thunk reads when it is called: the covariances that the input
    and the output factor currently hold. *)
Definition cov_state : Type := (tensor * tensor)%type.

(** A declared identity element is a value or a zero-argument function. *)
Inductive raw_elt : Type :=
| Plain (v : id_elt)
| Callable (f : unit -> id_elt).

(** The [func_id] argument: a tuple or list of elements, or one element. *)
Inductive raw_id : Type :=
| IdSeq (l : list raw_elt)
| IdSingle (e : raw_elt).

Record PackagedFunc : Type := mkPackagedFunc {
  _func : cov_state -> result tfloat;
  _func_id : list raw_elt
}.

(** [PackagedFunc.__init__], through [_package_func]. *)
Definition _package_func (func : cov_state -> result tfloat)
    (func_id : raw_id) : PackagedFunc :=
  {| _func := func;
     _func_id := match func_id with
                 | IdSeq l => l
                 | IdSingle e => [e]
                 end |}.

(** [PackagedFunc.__call__] *)
Definition call (p : PackagedFunc) (st : cov_state) : result tfloat :=
  _func p st.

(** The property [PackagedFunc.func_id]. *)
Definition func_id (p : PackagedFunc) : list id_elt :=
  map (fun elt => match elt with
                  | Callable f => f tt
                  | Plain v => v
                  end) (_func_id p).

Section WithPow.

(** The host language's [**] on a replication count and a float exponent,
    and the module-level global [NORMALIZE_DAMPING_POWER]. *)
Variable pow : Z -> R -> tfloat.
Variable NORMALIZE_DAMPING_POWER : R.

(** A float is true unless it is zero.  The division is that of tensors
    and numpy scalars, which gives an infinity or a NaN on a zero divisor;
    two plain Python numbers raise [ZeroDivisionError] there instead, so
    that on them the function is modelled only where the quotient is a
    number. *)
Definition normalize_damping (damping : tfloat) (num_replications : Z)
  : tfloat :=
  if Req_dec_T NORMALIZE_DAMPING_POWER 0 then damping
  else fdiv damping (pow num_replications NORMALIZE_DAMPING_POWER).

(** The local function [damping_func] of
    [ConvDiagonalFB.instantiate_factors], and its identity. *)
Definition conv_diagonal_damping_func (_num_locations : Z) (damping : tfloat)
  : PackagedFunc :=
  _package_func
    (fun _ => Ok (fmul (of_Z _num_locations)
                       (normalize_damping damping _num_locations)))
    (IdSeq [Plain (IdInt _num_locations); Plain (IdStr "mult");
            Plain (IdStr "normalize_damping"); Plain (IdNum damping);
            Plain (IdInt _num_locations)]).

(** The local function [compute_damping] of
    [KroneckerProductFB._setup_damping]; [x ** 0.5] is the square root. *)
Definition compute_damping (PI_TYPE : string) (damping : tfloat)
    (normalization : option Z) (st : cov_state)
  : result (option (tfloat * tfloat)) :=
  let maybe_normalized_damping :=
    match normalization with
    | Some n => normalize_damping damping n
    | None => damping
    end in
  compute_pi_adjusted_damping PI_TYPE (fst st) (snd st)
    (fsqrt maybe_normalized_damping).

(** [r[i]] on what [compute_damping] returned; [None] cannot be
    subscripted. *)
Definition subscript (i : nat) (r : option (tfloat * tfloat)) : result tfloat :=
  match r with
  | None => Raise TypeError
  | Some (a, b) =>
      match i with
      | 0%nat => Ok a
      | 1%nat => Ok b
      | _ => Raise IndexError
      end
  end.

Definition damping_id (input_name output_name : string) (damping : tfloat)
    (normalization : option Z) : list raw_elt :=
  match normalization with
  | Some n =>
      [Plain (IdStr "compute_pi_adjusted_damping");
       Plain (IdStr "cov"); Plain (IdStr input_name);
       Plain (IdStr "cov"); Plain (IdStr output_name);
       Plain (IdStr "normalize_damping"); Plain (IdNum damping);
       Plain (IdInt n); Plain (IdStr "power"); Plain (IdNum (Fin (1 / 2)%R))]
  | None =>
      [Plain (IdStr "compute_pi_adjusted_damping");
       Plain (IdStr "cov"); Plain (IdStr input_name);
       Plain (IdStr "cov"); Plain (IdStr output_name);
       Plain (IdNum damping); Plain (IdStr "power");
       Plain (IdNum (Fin (1 / 2)%R))]
  end.

(** [KroneckerProductFB._setup_damping]: the input and the output damping
    thunks. *)
Definition _setup_damping (PI_TYPE : string) (input_name output_name : string)
    (damping : tfloat) (normalization : option Z)
  : PackagedFunc * PackagedFunc :=
  let id := damping_id input_name output_name damping normalization in
  (_package_func
     (fun st => r <- compute_damping PI_TYPE damping normalization st ;;
                subscript 0 r)
     (IdSeq (id ++ [Plain (IdStr "ref"); Plain (IdInt 0)])),
   _package_func
     (fun st => r <- compute_damping PI_TYPE damping normalization st ;;
                subscript 1 r)
     (IdSeq (id ++ [Plain (IdStr "ref"); Plain (IdInt 1)]))).

End WithPow.

(** A power function that is exact on the exponent one, for examples. *)
Definition example_pow (n : Z) (p : R) : tfloat :=
  if Req_dec_T p 1 then of_Z n
  else if Z.ltb 0 n then Fin (Rpower (IZR n) p)
  else NaN.

(** Two diagonal covariances of dimension two, of traces four and one. *)
Definition cov_trace_4 : tensor :=
  {| shape := [2%nat]; data := [Fin 1%R; Fin 3%R] |}.
Definition cov_trace_1 : tensor :=
  {| shape := [2%nat]; data := [Fin 1%R; Fin 0%R] |}.

(** A scalar, which has rank zero. *)
Definition scalar_tensor : tensor := {| shape := []; data := [Fin 1%R] |}.

End DampingSetup.

(** ** Tower registration *)

Module Registration.

Import Towers.
Local Open Scope nat_scope.

(** [FullFB] and [NaiveDiagonalFB] keep the list [_batch_sizes]. *)
Module BatchSizes.

Definition block : Type := list Z.

(** [__init__] *)
Definition init : block := [].

Definition register_additional_tower (b : block) (batch_size : Z) : block :=
  b ++ [batch_size].

Definition num_registered_towers (b : block) : nat := length b.

(** A 32-bit signed integer, the type that the host library gives to a
    list of Python integers, and the wrap-around into its range. *)
Definition fits32 (z : Z) : Prop := (- 2 ^ 31 <= z < 2 ^ 31)%Z.

Definition wrap32 (z : Z) : Z := ((z + 2 ^ 31) mod 2 ^ 32 - 2 ^ 31)%Z.

(** [math_ops.reduce_sum(self._batch_sizes)]: the list, of 32-bit
    integers and not empty, becomes a 32-bit integer tensor, whose sum
    wraps around.  (The sum of an empty list is a float zero.) *)
Definition _batch_size (b : block) : Z := wrap32 (fold_left Z.add b 0%Z).

End BatchSizes.

(** [InputOutputMultiTower] keeps the two lists [__inputs] and
    [__outputs]. *)
Module InputOutput.

Record block : Type := mkBlock {
  _inputs : list pyobj;
  _outputs : list pyobj
}.

(** [__init__] *)
Definition init : block := {| _inputs := []; _outputs := [] |}.

Definition register_additional_tower (b : block) (inputs outputs : pyobj)
  : block :=
  {| _inputs := _inputs b ++ [inputs]; _outputs := _outputs b ++ [outputs] |}.

(** The property asserts that both lists are equally long. *)
Definition num_registered_towers (b : block) : result nat :=
  let r := length (_inputs b) in
  if Nat.eqb r (length (_outputs b)) then Ok r else Raise AssertionError.

Definition tensors_to_compute_grads (b : block) : pyobj :=
  PyTuple (_outputs b).

(** A block after the towers [towers] were registered one after the
    other. *)
Definition register_all (b : block) (towers : list (pyobj * pyobj)) : block :=
  fold_left (fun acc t => register_additional_tower acc (fst t) (snd t))
            towers b.

End InputOutput.

End Registration.

(** ** Depthwise blocks *)

Module DepthwiseBlocks.

Import Depthwise.
Local Open Scope nat_scope.

(** [multiply_matpower] of [DepthwiseConvDiagonalFB] and of
    [DepthwiseConvKFCBasicFB]: the parameter is turned into a full filter,
    handed to the [multiply_matpower] of the parent class, here [parent],
    and the result is turned back. *)
Definition multiply_matpower (parent : filter4 -> Q -> result filter4)
    (vector : filter4) (exp : Q) : result filter4 :=
  conv2d_vector <- depthwise_conv2d_filter_to_conv2d_filter vector ;;
  conv2d_result <- parent conv2d_vector exp ;;
  conv2d_filter_to_depthwise_conv2d_filter conv2d_result.

(** A full one-by-one filter over two channels whose off-diagonal blocks
    are not zero. *)
Definition example_full_filter : filter4 :=
  {| fshape := (1, 1, 2, 2);
     fdata := [[[[Fin 1%R; Fin 5%R]; [Fin 6%R; Fin 2%R]]]] |}.

End DepthwiseBlocks.

(** ** Constructors of the convolutional blocks

    The constructors validate their arguments and record the filter shape.
    A parameter is a tensor, given by its static shape, or a tuple or list
    of tensors (kernel and bias).  [maybe_tuple] turns a list into a tuple;
    both are lists here. *)

Module ConvBlocks.

Local Open Scope nat_scope.

Inductive params : Type :=
| ParamTensor (shp : list nat)
| ParamSeq (tensors : list (list nat)).

(** [isinstance(params, (tuple, list))] *)
Definition is_param_seq (p : params) : bool :=
  match p with
  | ParamTensor _ => false
  | ParamSeq _ => true
  end.

(** [params[0] if self._has_bias else params], then its shape. *)
Definition fltr_shape (p : params) : result (list nat) :=
  match p with
  | ParamTensor shp => Ok shp
  | ParamSeq [] => Raise IndexError
  | ParamSeq (shp :: _) => Ok shp
  end.

(** The attributes that the constructor of [ConvDiagonalFB] sets. *)
Module ConvDiagonalFB.

Record block : Type := mkBlock {
  _strides : list Z;
  _padding : string;
  _data_format : option string;
  _dilations : list Z;
  _has_bias : bool;
  _filter_shape : list nat
}.

End ConvDiagonalFB.

Section WithDataFormat.

(** [utils.is_data_format_channel_last], from the package's [utils]
    module. *)
Variable is_data_format_channel_last : option string -> bool.

Definition conv_diagonal_init (p : params) (strides : list Z)
    (padding : string) (data_format : option string)
    (dilations : option (list Z)) : result ConvDiagonalFB.block :=
  if negb (Nat.eqb (length strides) 4) then Raise ValueError
  else
    let dilations := match dilations with
                     | None => [1; 1; 1; 1]%Z
                     | Some d => d
                     end in
    if negb (Nat.eqb (length dilations) 4) then Raise ValueError
    else if negb (is_data_format_channel_last data_format) then Raise ValueError
    else
      shp <- fltr_shape p ;;
      if negb (Nat.eqb (length shp) 4) then Raise ValueError
      else Ok {| ConvDiagonalFB._strides := strides;
                 ConvDiagonalFB._padding := padding;
                 ConvDiagonalFB._data_format := data_format;
                 ConvDiagonalFB._dilations := dilations;
                 ConvDiagonalFB._has_bias := is_param_seq p;
                 ConvDiagonalFB._filter_shape := shp |}.

(** The checks on [rate] shared by the two depthwise constructors:
    [rate = [1, rate[0], rate[1], 1]] once its length is two. *)
Definition expand_rate (rate : option (list Z)) : result (option (list Z)) :=
  match rate with
  | None => Ok None
  | Some r =>
      if negb (Nat.eqb (length r) 2) then Raise ValueError
      else Ok (Some [1%Z; nth 0 r 0%Z; nth 1 r 0%Z; 1%Z])
  end.

(** The unpacking
    [filter_height, filter_width, in_channels, channel_multiplier =
     params.shape.as_list()]
    and the shape the depthwise constructors store. *)
Definition depthwise_filter_shape (shp : list nat) : result (list nat) :=
  match shp with
  | [filter_height; filter_width; in_channels; channel_multiplier] =>
      Ok [filter_height; filter_width; in_channels;
          in_channels * channel_multiplier]
  | _ => Raise ValueError
  end.

Definition depthwise_conv_diagonal_init (p : params) (strides : list Z)
    (padding : string) (rate : option (list Z)) (data_format : option string)
  : result ConvDiagonalFB.block :=
  match p with
  | ParamSeq _ => Raise NotImplementedError
  | ParamTensor shp =>
      if negb (Nat.eqb (length shp) 4) then Raise ValueError
      else if negb (Nat.eqb (length strides) 4) then Raise ValueError
      else
        rate' <- expand_rate rate ;;
        if negb (is_data_format_channel_last data_format)
        then Raise ValueError
        else
          b <- conv_diagonal_init p strides padding data_format rate' ;;
          fs <- depthwise_filter_shape shp ;;
          Ok {| ConvDiagonalFB._strides := ConvDiagonalFB._strides b;
                ConvDiagonalFB._padding := ConvDiagonalFB._padding b;
                ConvDiagonalFB._data_format := ConvDiagonalFB._data_format b;
                ConvDiagonalFB._dilations := ConvDiagonalFB._dilations b;
                ConvDiagonalFB._has_bias := ConvDiagonalFB._has_bias b;
                ConvDiagonalFB._filter_shape := fs |}
  end.

End WithDataFormat.

(** The shape of a rank-4 filter as a list. *)
Definition shape_list (s : nat * nat * nat * nat) : list nat :=
  let '(a, b, c, d) := s in [a; b; c; d].

(** A data-format test that accepts no format at all or one that ends in
    the channel axis, for examples. *)
Definition example_channel_last (data_format : option string) : bool :=
  match data_format with
  | None => true
  | Some s => String.eqb s "NHWC"
  end.

End ConvBlocks.

(** ** Default methods of [FisherBlock] on the series block *)

Module SeriesAPI.

Import Series.

Definition register_inverse (b : block) : result block :=
  register_matpower b (-1 # 1).

Definition multiply_inverse (b : block) (vector : matrix) : result matrix :=
  multiply_matpower b vector (-1 # 1).

Definition multiply (b : block) (vector : matrix) : result matrix :=
  multiply_matpower b vector (1 # 1).

(** A matrix with [r] rows of [c] entries each. *)
Definition rectangular (r c : nat) (m : matrix) : Prop :=
  length m = r /\ Forall (fun row => length row = c) m.

(** A block whose option is neither [option1] nor [option2]. *)
Definition unknown_option_block : block :=
  {| _option := 3;
     _num_uses := _num_uses example_block;
     input_option1quants := input_option1quants example_block;
     output_option1quants := output_option1quants example_block;
     input_option2quants := input_option2quants example_block;
     output_option2quants := output_option2quants example_block;
     input_registered := [];
     output_registered := [] |}.

End SeriesAPI.

(** ** Instantiating the multi-use convolutional block *)

Module MultiUseBlocks.

Import Towers ConvLocations.

(** A Python outcome that may also be an [AttributeError]. *)
Inductive outcome (A : Type) : Type :=
| Returns (a : A)
| Raises (e : exn)
| RaisesAttributeError.

Arguments Returns {A} a.
Arguments Raises {A} e.
Arguments RaisesAttributeError {A}.

(** [o.shape.as_list()]: tensors and partitioned tensors have a shape,
    which [shape_of] gives; lists and tuples have no such attribute. *)
Definition shape_attr (shape_of : pyobj -> list Z) (o : pyobj)
  : option (list Z) :=
  match o with
  | PyList _ | PyTuple _ => None
  | _ => Some (shape_of o)
  end.

(** The first two statements of
    [ConvKFCBasicMultiIndepFB.instantiate_factors]: the data is processed
    and the number of locations is read off [inputs.shape]. *)
Definition instantiate_num_locations (shape_of : pyobj -> list Z)
    (TOWER_STRATEGY : string) (_num_uses : option nat)
    (inputs : list pyobj) (grads_list : list (list pyobj))
    (strides : option (list Z)) : outcome npnum :=
  match InputOutputMultiTowerMultiUse._process_data TOWER_STRATEGY _num_uses
          inputs grads_list with
  | Raise e => Raises e
  | Ok (inputs', _, _) =>
      match shape_attr shape_of inputs' with
      | None => RaisesAttributeError
      | Some s => Returns (num_conv_locations s strides)
      end
  end.

(** The registered inputs of towers whose uses are the tensors named by
    [towers]: one list of tensors per tower. *)
Definition tower_lists (towers : list (list nat)) : list pyobj :=
  map (fun uses => PyList (map Tensor uses)) towers.

End MultiUseBlocks.

(** * Properties *)

(** ** Arithmetic on tensor entries *)

Section TFloatFacts.

Local Open Scope R_scope.

Lemma sgn_of_pos (r : R) : 0 < r -> sgn_of r = Pos.
Proof.
  intros H. unfold sgn_of.
  destruct (Rlt_dec r 0) as [Hn | _]; [lra |].
  destruct (Rlt_dec 0 r) as [_ | Hn]; [reflexivity | lra].
Qed.

Lemma sgn_of_zero : sgn_of 0 = Zero.
Proof.
  unfold sgn_of.
  destruct (Rlt_dec 0 0) as [Hn | _]; [lra | reflexivity].
Qed.

Lemma fdiv_fin (a b : R) : b <> 0 -> fdiv (Fin a) (Fin b) = Fin (a / b).
Proof.
  intros H. unfold fdiv.
  destruct (Req_dec_T b 0) as [E | _]; [contradiction | reflexivity].
Qed.

Lemma fdiv_fin_zero (a : R) : fdiv (Fin a) (Fin 0) = inf_of_sgn (sgn_of a).
Proof.
  unfold fdiv.
  destruct (Req_dec_T 0 0) as [_ | N]; [reflexivity | contradiction].
Qed.

Lemma fsqrt_fin (a : R) : 0 <= a -> fsqrt (Fin a) = Fin (sqrt a).
Proof.
  intros H. unfold fsqrt.
  destruct (Rlt_dec a 0) as [Hn | _]; [lra | reflexivity].
Qed.

Lemma fmul_1_r (x : tfloat) : fmul x (Fin 1) = x.
Proof.
  destruct x as [a | | |]; simpl.
  - f_equal. ring.
  - rewrite sgn_of_pos by lra. reflexivity.
  - rewrite sgn_of_pos by lra. reflexivity.
  - reflexivity.
Qed.

Lemma fpow_2 (x : tfloat) : fpow x 2 = fmul x x.
Proof. simpl. rewrite fmul_1_r. reflexivity. Qed.

Lemma fpow_fin (a : R) (n : nat) : fpow (Fin a) n = Fin (a ^ n).
Proof.
  induction n as [| n IH]; simpl; [reflexivity |].
  rewrite IH. reflexivity.
Qed.

Lemma fold_fadd_repeat (c a : R) (m : nat) :
  fold_left fadd (repeat (Fin c) m) (Fin a) = Fin (a + INR m * c).
Proof.
  revert a. induction m as [| m IH]; intros a.
  - simpl. f_equal. ring.
  - cbn [repeat fold_left fadd]. rewrite IH. f_equal.
    rewrite S_INR. ring.
Qed.

Lemma fsum_repeat (c : R) (m : nat) :
  fsum (repeat (Fin c) m) = Fin (INR m * c).
Proof.
  unfold fsum. rewrite fold_fadd_repeat. f_equal. ring.
Qed.

End TFloatFacts.

(** ** Lists of equally long blocks *)

Section Blocks.

Context {A : Type}.

Lemma nth_concat_uniform (n : nat) (ls : list (list A)) (i j : nat) (d : A) :
  Forall (fun l => length l = n) ls -> (j < n)%nat ->
  nth (i * n + j) (concat ls) d = nth j (nth i ls []) d.
Proof.
  intros Hall Hj. revert i.
  induction Hall as [| l ls Hl _ IH]; intros i.
  - cbn [concat]. destruct (i * n + j)%nat; destruct i; destruct j; reflexivity.
  - destruct i as [| i]; cbn [concat nth].
    + rewrite app_nth1 by lia. reflexivity.
    + rewrite app_nth2 by (simpl; lia).
      replace (S i * n + j - length l)%nat with (i * n + j)%nat
        by (simpl; lia).
      apply IH.
Qed.

Lemma length_concat_uniform (n : nat) (ls : list (list A)) :
  Forall (fun l => length l = n) ls -> length (concat ls) = (length ls * n)%nat.
Proof.
  induction 1 as [| l ls Hl _ IH]; [reflexivity |].
  cbn [concat length]. rewrite length_app, IH, Hl. lia.
Qed.

Lemma map_const_repeat {B : Type} (f : B -> A) (c : A) (l : list B) :
  (forall x, In x l -> f x = c) -> map f l = repeat c (length l).
Proof.
  induction l as [| x l IH]; intros H; [reflexivity |].
  cbn [map length repeat]. rewrite H by (left; reflexivity).
  f_equal. apply IH. intros y Hy. apply H. right. exact Hy.
Qed.

End Blocks.

Lemma nth_map_range {A : Type} (f : nat -> A) (n i : nat) (d : A) :
  (i < n)%nat -> nth i (map f (range n)) d = f i.
Proof.
  intros H. unfold range.
  rewrite (nth_indep _ d (f O)) by (rewrite length_map, length_seq; exact H).
  rewrite map_nth. rewrite seq_nth by exact H. reflexivity.
Qed.

Lemma length_range (n : nat) : length (range n) = n.
Proof. apply length_seq. Qed.

Lemma in_range (n i : nat) : In i (range n) <-> (i < n)%nat.
Proof. unfold range. rewrite in_seq. lia. Qed.

(** ** Damping utilities *)

Section DampingFacts.

Import Damping.
Local Open Scope R_scope.

Lemma trace_scaled_identity (c : R) (m : nat) (A : tensor) :
  is_scaled_identity c m A ->
  _trace A = Ok (Fin (INR m * c)) /\ shape0 A = Ok m.
Proof.
  intros [-> | ->]; unfold _trace, shape0; cbn [shape data scaled_identity_full
    scaled_identity_diag]; split; try reflexivity.
  - f_equal. unfold matrix_trace. rewrite Nat.min_id.
    rewrite (map_const_repeat _ (Fin c)).
    + rewrite length_range. apply fsum_repeat.
    + intros i Hi. apply in_range in Hi.
      rewrite nth_concat_uniform.
      * rewrite nth_map_range by exact Hi.
        rewrite nth_map_range by exact Hi.
        rewrite Nat.eqb_refl. reflexivity.
      * apply Forall_forall. intros row Hrow.
        apply in_map_iff in Hrow. destruct Hrow as [k [<- _]].
        rewrite length_map. apply length_range.
      * exact Hi.
  - f_equal. apply fsum_repeat.
Qed.

Lemma valid_rank_trace (cov : tensor) :
  rank cov = 1%nat \/ rank cov = 2%nat ->
  _trace cov = Ok (spec_trace cov) /\ shape0 cov = Ok (dim cov).
Proof.
  unfold rank, _trace, spec_trace, shape0, dim.
  destruct (shape cov) as [| a [| b [| c l]]]; simpl; intros [H | H];
    try discriminate; split; reflexivity.
Qed.

Lemma invalid_rank_trace (cov : tensor) :
  ~ (rank cov = 1%nat \/ rank cov = 2%nat) -> _trace cov = Raise ValueError.
Proof.
  unfold rank, _trace.
  destruct (shape cov) as [| a [| b [| c l]]]; simpl; intros H;
    try reflexivity; exfalso; apply H; auto.
Qed.

(** C2.  For covariances of rank 1 or 2, [compute_pi_tracenorm A B] returns
    the square root of [(trace A * n) / (trace B * m)] with [m] and [n] the
    dimensions of [A] and [B]; it raises when either argument has another
    rank; and on [A = c * I_m], [B = I_n], in either representation and for
    all positive [m] and [n], it returns the square root of [c]. *)
Theorem compute_pi_tracenorm_correct :
  (forall A B : tensor,
      (rank A = 1%nat \/ rank A = 2%nat) ->
      (rank B = 1%nat \/ rank B = 2%nat) ->
      compute_pi_tracenorm A B = Ok (spec_pi A B)) /\
  (forall A B : tensor,
      ~ (rank A = 1%nat \/ rank A = 2%nat) \/
      ~ (rank B = 1%nat \/ rank B = 2%nat) ->
      raises (compute_pi_tracenorm A B)) /\
  (forall (c : R) (m n : nat) (A B : tensor),
      (0 < m)%nat -> (0 < n)%nat ->
      is_scaled_identity c m A -> is_scaled_identity 1 n B ->
      compute_pi_tracenorm A B = Ok (fsqrt (Fin c))).
Proof.
  split; [| split].
  - intros A B HA HB. unfold compute_pi_tracenorm, spec_pi.
    destruct (valid_rank_trace A HA) as [-> ->].
    destruct (valid_rank_trace B HB) as [-> ->].
    reflexivity.
  - intros A B [HA | HB]; unfold compute_pi_tracenorm.
    + rewrite (invalid_rank_trace A HA). exists ValueError. reflexivity.
    + destruct (_trace A) as [tl | e]; [| exists e; reflexivity].
      cbn [bind]. destruct (shape0 B) as [n | e]; [| exists e; reflexivity].
      cbn [bind]. rewrite (invalid_rank_trace B HB).
      exists ValueError. reflexivity.
  - intros c m n A B Hm Hn HA HB. unfold compute_pi_tracenorm.
    destruct (trace_scaled_identity c m A HA) as [-> ->].
    destruct (trace_scaled_identity 1 n B HB) as [-> ->].
    cbn [bind fmul of_nat].
    assert (0 < INR m) by (apply lt_0_INR; exact Hm).
    assert (0 < INR n) by (apply lt_0_INR; exact Hn).
    rewrite fdiv_fin by nra.
    do 2 f_equal. f_equal. field. lra.
Qed.

Lemma compute_pi_tracenorm_correct_witness :
  compute_pi_tracenorm (scaled_identity_full 4 2) (scaled_identity_diag 1 3)
  = Ok (fsqrt (Fin 4)).
Proof.
  apply (proj2 (proj2 compute_pi_tracenorm_correct) 4 2%nat 3%nat).
  - lia.
  - lia.
  - left. reflexivity.
  - right. reflexivity.
Defined.

Lemma fmul_fdiv_pos (d : tfloat) (p : R) :
  0 < p -> fmul (fmul d (Fin p)) (fdiv d (Fin p)) = fpow d 2.
Proof.
  intros Hp. rewrite fpow_2.
  destruct d as [a | | |]; cbn [fmul].
  - rewrite fdiv_fin by lra. cbn [fmul]. f_equal. field. lra.
  - rewrite (sgn_of_pos p Hp). cbn [inf_of_sgn fdiv].
    destruct (Rlt_dec p 0) as [Hn | _]; [lra | reflexivity].
  - rewrite (sgn_of_pos p Hp). cbn [sgn_opp inf_of_sgn fdiv].
    destruct (Rlt_dec p 0) as [Hn | _]; [lra | reflexivity].
  - reflexivity.
Qed.

Lemma pi_of_unit_covs :
  compute_pi_tracenorm unit_cov unit_cov = Ok (Fin (sqrt 1)).
Proof.
  unfold compute_pi_tracenorm, unit_cov, _trace, shape0, fsum, of_nat.
  cbn [shape data fold_left fadd bind fmul INR].
  rewrite fdiv_fin by lra. rewrite fsqrt_fin.
  - do 3 f_equal. field.
  - rewrite Rplus_0_l, !Rmult_1_l. unfold Rdiv. rewrite Rinv_1. lra.
Defined.

(** C1, amended.  In the "tracenorm" mode, whenever pi is a positive finite
    number, [compute_pi_adjusted_damping] returns
    [(damping * pi, damping / pi)], whose product is [damping ** 2]; in the
    "off" mode it returns [(damping, damping)], whose product is
    [damping ** 2], for every pair of covariances and every damping. *)
Theorem pi_adjusted_damping_product :
  forall (left_cov right_cov : tensor) (damping : tfloat),
    (forall p : R,
        compute_pi_tracenorm left_cov right_cov = Ok (Fin p) -> 0 < p ->
        compute_pi_adjusted_damping PI_TRACENORM_NAME left_cov right_cov damping
        = Ok (Some (fmul damping (Fin p), fdiv damping (Fin p))) /\
        fmul (fmul damping (Fin p)) (fdiv damping (Fin p)) = fpow damping 2) /\
    (compute_pi_adjusted_damping PI_OFF_NAME left_cov right_cov damping
     = Ok (Some (damping, damping)) /\
     fmul damping damping = fpow damping 2).
Proof.
  intros left_cov right_cov damping. split.
  - intros p Hpi Hp. split.
    + unfold compute_pi_adjusted_damping.
      rewrite String.eqb_refl, Hpi. reflexivity.
    + apply fmul_fdiv_pos. exact Hp.
  - split; [reflexivity |]. symmetry. apply fpow_2.
Qed.

Lemma pi_adjusted_damping_product_witness :
  compute_pi_adjusted_damping PI_TRACENORM_NAME unit_cov unit_cov (Fin 3)
  = Ok (Some (fmul (Fin 3) (Fin (sqrt 1)), fdiv (Fin 3) (Fin (sqrt 1)))) /\
  fmul (fmul (Fin 3) (Fin (sqrt 1))) (fdiv (Fin 3) (Fin (sqrt 1)))
  = fpow (Fin 3) 2.
Proof.
  apply (proj1 (pi_adjusted_damping_product unit_cov unit_cov (Fin 3))).
  - exact pi_of_unit_covs.
  - rewrite sqrt_1. exact Rlt_0_1.
Defined.

(** C1 as stated fails on a zero left covariance: pi is zero, the pair is
    [(0, +inf)], and its product is not a number. *)
Lemma pi_adjusted_damping_zero_trace :
  compute_pi_adjusted_damping PI_TRACENORM_NAME zero_cov unit_cov (Fin 1)
  = Ok (Some (Fin 0, PInf)) /\
  fmul (Fin 0) PInf = NaN /\
  fmul (Fin 0) PInf <> fpow (Fin 1) 2.
Proof.
  assert (Hpi : compute_pi_tracenorm zero_cov unit_cov = Ok (Fin 0)).
  { unfold compute_pi_tracenorm, zero_cov, unit_cov, _trace, shape0, fsum,
      of_nat.
    cbn [shape data fold_left fadd bind fmul INR].
    rewrite fdiv_fin by lra. rewrite fsqrt_fin.
    - match goal with
      | |- context [sqrt ?x] => replace x with 0 by (field; lra)
      end.
      rewrite sqrt_0. reflexivity.
    - rewrite Rplus_0_l, Rmult_0_l. unfold Rdiv. rewrite Rmult_0_l. lra. }
  assert (Hnan : fmul (Fin 0) PInf = NaN).
  { cbn [fmul]. rewrite sgn_of_zero. reflexivity. }
  split; [| split].
  - unfold compute_pi_adjusted_damping. rewrite String.eqb_refl, Hpi.
    cbn [bind fmul]. rewrite fdiv_fin_zero, sgn_of_pos by lra.
    rewrite Rmult_0_r. reflexivity.
  - exact Hnan.
  - rewrite Hnan. simpl. discriminate.
Qed.

(** C10.  When [PI_TYPE] is neither "tracenorm" nor "off",
    [compute_pi_adjusted_damping] raises nothing and returns [None]. *)
Theorem pi_adjusted_damping_unknown_mode :
  forall (PI_TYPE : string) (left_cov right_cov : tensor) (damping : tfloat),
    PI_TYPE <> PI_TRACENORM_NAME -> PI_TYPE <> PI_OFF_NAME ->
    compute_pi_adjusted_damping PI_TYPE left_cov right_cov damping = Ok None.
Proof.
  intros PI_TYPE left_cov right_cov damping Ht Ho.
  unfold compute_pi_adjusted_damping.
  apply String.eqb_neq in Ht. apply String.eqb_neq in Ho.
  rewrite Ht, Ho. reflexivity.
Qed.

Lemma pi_adjusted_damping_unknown_mode_witness :
  compute_pi_adjusted_damping "trace"%string zero_cov unit_cov (Fin 1)
  = Ok None.
Proof.
  apply pi_adjusted_damping_unknown_mode.
  - discriminate.
  - discriminate.
Defined.

End DampingFacts.

(** ** The Kronecker-product block family *)

Section KroneckerFacts.

Import Kronecker.
Local Open Scope nat_scope.

Lemma nth_map_lt {A B : Type} (f : A -> B) (l : list A) (i : nat)
    (d : B) (d' : A) :
  i < length l -> nth i (map f l) d = f (nth i l d').
Proof.
  intros H.
  rewrite (nth_indep _ d (f d')) by (rewrite length_map; exact H).
  apply map_nth.
Qed.

(** The model of [utils.kronecker_product] is the Kronecker product: entry
    [(i1 * r2 + i2, j1 * c2 + j2)] is [a[i1][j1] * b[i2][j2]]. *)
Lemma kronecker_product_entry (a b : matrix) (r2 c2 i1 i2 j1 j2 : nat) :
  length b = r2 -> Forall (fun row => length row = c2) b ->
  i1 < length a -> i2 < r2 -> j1 < length (nth i1 a []) -> j2 < c2 ->
  entry (kronecker_product a b) (i1 * r2 + i2) (j1 * c2 + j2)
  = fmul (entry a i1 j1) (entry b i2 j2).
Proof.
  intros Hb Hrows Hi1 Hi2 Hj1 Hj2. subst r2. unfold entry, kronecker_product.
  assert (Hlen : length (nth i2 b []) = c2).
  { rewrite Forall_forall in Hrows. apply Hrows. apply nth_In. exact Hi2. }
  rewrite (nth_concat_uniform (length b)).
  - rewrite nth_map_lt with (d' := []) by exact Hi1.
    rewrite nth_map_lt with (d' := []) by exact Hi2.
    rewrite (nth_concat_uniform c2).
    + rewrite nth_map_lt with (d' := Fin 0%R) by exact Hj1.
      rewrite nth_map_lt with (d' := Fin 0%R)
        by (unfold vector in Hlen; rewrite Hlen; exact Hj2).
      reflexivity.
    + apply Forall_forall. intros row Hrow.
      apply in_map_iff in Hrow. destruct Hrow as [x [<- _]].
      rewrite length_map. exact Hlen.
    + exact Hj2.
  - apply Forall_forall. intros blk Hblk.
    apply in_map_iff in Hblk. destruct Hblk as [arow [<- _]].
    apply length_map.
  - exact Hi2.
Qed.




End KroneckerFacts.

(** ** The temporal series block *)

Section SeriesFacts.

Import Series.

Lemma is_inverse_true (exp : Q) : is_inverse exp = true <-> exp == -1 # 1.
Proof. unfold is_inverse. apply Qeq_bool_iff. Qed.

Lemma is_inverse_false (exp : Q) : is_inverse exp = false <-> ~ exp == -1 # 1.
Proof.
  rewrite <- is_inverse_true. destruct (is_inverse exp); split; intros H;
    try reflexivity; try discriminate.
  exfalso. apply H. reflexivity.
Qed.

(** C4.  On a [FullyConnectedSeriesFB], [register_matpower] and
    [multiply_matpower] raise [NotImplementedError] for every exponent other
    than -1, and do not raise it for the exponent -1. *)
Theorem series_supports_only_inverse :
  forall (b : block) (vector : matrix) (exp : Q),
    (~ exp == -1 # 1 ->
     register_matpower b exp = Raise NotImplementedError /\
     multiply_matpower b vector exp = Raise NotImplementedError) /\
    (exp == -1 # 1 ->
     register_matpower b exp <> Raise NotImplementedError /\
     multiply_matpower b vector exp <> Raise NotImplementedError).
Proof.
  intros b vector exp. split; intros H.
  - apply is_inverse_false in H.
    unfold register_matpower, multiply_matpower. rewrite H. split; reflexivity.
  - apply is_inverse_true in H.
    unfold register_matpower, multiply_matpower. rewrite H. cbn [negb].
    split.
    + destruct (_option b =? option1)%Z; [discriminate |].
      destruct (_option b =? option2)%Z; discriminate.
    + discriminate.
Qed.

Lemma series_supports_only_inverse_witness :
  (register_matpower example_block (1 # 2) = Raise NotImplementedError /\
   multiply_matpower example_block [[Fin 1%R]] (1 # 2)
   = Raise NotImplementedError) /\
  (register_matpower example_block (-1 # 1) <> Raise NotImplementedError /\
   multiply_matpower example_block [[Fin 1%R]] (-1 # 1)
   <> Raise NotImplementedError).
Proof.
  split.
  - apply (proj1 (series_supports_only_inverse example_block [[Fin 1%R]]
                    (1 # 2))).
    unfold Qeq. simpl. discriminate.
  - apply (proj2 (series_supports_only_inverse example_block [[Fin 1%R]]
                    (-1 # 1))).
    reflexivity.
Defined.

Local Open Scope nat_scope.












Local Open Scope R_scope.

(** C6.  The decay kernel of Option 1 is
    [gamma x = (1 - x)^2 / (T (1 - x^2) - 2 x (1 - x^T))] wherever the
    denominator is not zero, and [gamma 0 = 1 / T] for every [T]. *)
Theorem gamma_kernel :
  (forall (T : nat) (x : R),
      INR T * (1 - x ^ 2) - 2 * x * (1 - x ^ T) <> 0 ->
      gamma T (Fin x)
      = Fin ((1 - x) ^ 2 / (INR T * (1 - x ^ 2) - 2 * x * (1 - x ^ T)))) /\
  (forall T : nat, gamma T (Fin 0) = fdiv (Fin 1) (of_nat T)).
Proof.
  assert (Hshape : forall (T : nat) (x : R),
             gamma T (Fin x)
             = fdiv (Fin ((1 - x) ^ 2))
                    (Fin (INR T * (1 - x ^ 2) - 2 * x * (1 - x ^ T)))).
  { intros T x. unfold gamma, fsub, of_nat.
    cbn [fneg fadd]. rewrite !fpow_fin. cbn [fneg fadd fmul].
    f_equal; f_equal; ring. }
  split.
  - intros T x Hden. rewrite Hshape. apply fdiv_fin. exact Hden.
  - intros T. rewrite Hshape. unfold of_nat.
    f_equal; f_equal.
    + ring.
    + destruct T as [| T]; [simpl; ring |].
      rewrite pow_i by lia. ring.
Qed.

Lemma gamma_kernel_witness :
  gamma 2 (Fin 2)
  = Fin ((1 - 2) ^ 2 / (INR 2 * (1 - 2 ^ 2) - 2 * 2 * (1 - 2 ^ 2))).
Proof.
  apply (proj1 gamma_kernel 2%nat 2). simpl. lra.
Defined.

End SeriesFacts.

(** ** [num_conv_locations] *)

Section ConvLocationsFacts.

Import ConvLocations.
Local Open Scope Z_scope.

Lemma fold_left_mul (l : list Z) (a : Z) :
  fold_left Z.mul l a = a * prod l.
Proof.
  revert a. induction l as [| x l IH]; intros a; cbn [fold_left prod fold_right].
  - ring.
  - rewrite IH. unfold prod. ring.
Qed.

Lemma wrap64_fits (z : Z) : fits64 z -> wrap64 z = z.
Proof.
  unfold fits64, wrap64. intros H.
  rewrite Z.mod_small; lia.
Qed.

Lemma np_prod_prod (l : list Z) :
  l <> [] -> np_prod l = NpInt (wrap64 (prod l)).
Proof.
  destruct l as [| x l]; [congruence |]. intros _.
  unfold np_prod. rewrite fold_left_mul. do 2 f_equal. ring.
Qed.

Lemma slice_spatial_dims (input_shape : list Z) :
  slice_1_m1 input_shape = spatial_dims input_shape.
Proof.
  unfold slice_1_m1, spatial_dims.
  rewrite removelast_firstn_len, length_tl.
  destruct input_shape as [| b l]; [reflexivity |].
  cbn [skipn tl length]. f_equal. lia.
Qed.

Lemma num_conv_locations_none (input_shape : list Z) :
  spatial_dims input_shape <> [] ->
  fits64 (prod (spatial_dims input_shape)) ->
  num_conv_locations input_shape None = NpInt (prod (spatial_dims input_shape)).
Proof.
  intros Hne Hfit. unfold num_conv_locations.
  rewrite slice_spatial_dims, (np_prod_prod _ Hne), (wrap64_fits _ Hfit).
  cbn [floor_divide]. change (1 =? 0) with false. cbv iota.
  rewrite Z.div_1_r, (wrap64_fits _ Hfit). reflexivity.
Qed.

Lemma num_conv_locations_some (input_shape strides : list Z) :
  spatial_dims input_shape <> [] -> strides <> [] ->
  fits64 (prod (spatial_dims input_shape)) -> fits64 (prod strides) ->
  fits64 (prod (spatial_dims input_shape) / prod strides) ->
  num_conv_locations input_shape (Some strides)
  = NpInt (prod (spatial_dims input_shape) / prod strides).
Proof.
  intros Hne Hne' Hx Hy Hq. unfold num_conv_locations.
  rewrite slice_spatial_dims, (np_prod_prod _ Hne), (np_prod_prod _ Hne'),
    (wrap64_fits _ Hx), (wrap64_fits _ Hy).
  cbn [floor_divide]. f_equal.
  destruct (Z.eqb_spec (prod strides) 0) as [E | N].
  - rewrite E. symmetry. apply Z.div_0_r.
  - apply wrap64_fits. exact Hq.
Qed.

Lemma floor_quotient_fits (x y : Z) :
  fits64 x -> 0 < y -> fits64 (x / y).
Proof.
  unfold fits64. intros Hx Hy.
  pose proof (Z.mul_div_le x y Hy).
  pose proof (Z.mul_succ_div_gt x y Hy).
  nia.
Qed.

(** C7.  On an input shape with at least one spatial dimension, whose
    spatial dimensions and their product are 64-bit integers,
    [num_conv_locations] returns the product of the spatial dimensions
    when [strides] is [None]; when [strides] is a non-empty list with a
    positive product below [2^63] it returns that product floor divided by
    the product of the strides, that is, the largest [q] with
    [prod strides * q <= prod spatial_dims].  A one-dimensional input of
    length 10, or of length 9, with stride 2 gives 5, or 4. *)
Theorem num_conv_locations_floor_division :
  (forall input_shape : list Z,
      spatial_dims input_shape <> [] ->
      Forall fits64 (spatial_dims input_shape) ->
      fits64 (prod (spatial_dims input_shape)) ->
      num_conv_locations input_shape None
      = NpInt (prod (spatial_dims input_shape))) /\
  (forall (input_shape strides : list Z),
      spatial_dims input_shape <> [] ->
      Forall fits64 (spatial_dims input_shape) ->
      fits64 (prod (spatial_dims input_shape)) ->
      strides <> [] ->
      0 < prod strides < 2 ^ 63 ->
      let q := prod (spatial_dims input_shape) / prod strides in
      num_conv_locations input_shape (Some strides) = NpInt q /\
      prod strides * q <= prod (spatial_dims input_shape)
      < prod strides * (q + 1)) /\
  (forall batch channels : Z,
      num_conv_locations [batch; 10; channels] (Some [2]) = NpInt 5 /\
      num_conv_locations [batch; 9; channels] (Some [2]) = NpInt 4).
Proof.
  split; [| split].
  - intros input_shape Hne _ Hfit. apply num_conv_locations_none; assumption.
  - intros input_shape strides Hne _ Hfit Hne' Hpos q. subst q. split.
    + apply num_conv_locations_some; try assumption.
      * unfold fits64. lia.
      * apply floor_quotient_fits; [assumption | lia].
    + pose proof (Z.mul_div_le (prod (spatial_dims input_shape))
                    (prod strides) (proj1 Hpos)).
      pose proof (Z.mul_succ_div_gt (prod (spatial_dims input_shape))
                    (prod strides) (proj1 Hpos)).
      lia.
  - intros batch channels. split; reflexivity.
Qed.

Lemma num_conv_locations_floor_division_witness :
  num_conv_locations [8; 3; 3; 16] (Some [1; 2; 1; 1]) = NpInt 4 /\
  2 * 4 <= 9 < 2 * (4 + 1).
Proof.
  apply (proj1 (proj2 num_conv_locations_floor_division)
           [8; 3; 3; 16] [1; 2; 1; 1]).
  - discriminate.
  - unfold spatial_dims, fits64. cbn [tl removelast].
    repeat constructor; lia.
  - unfold fits64, prod, spatial_dims. cbn. lia.
  - discriminate.
  - unfold prod. cbn. lia.
Defined.

End ConvLocationsFacts.

(** ** Depthwise filter adapters *)

Section DepthwiseFacts.

Import Depthwise.
Local Open Scope nat_scope.

Lemma map_nth_range {A : Type} (l : list A) (d : A) :
  map (fun i => nth i l d) (range (length l)) = l.
Proof.
  apply (nth_ext _ _ d d).
  - rewrite length_map. apply length_range.
  - intros n Hn. rewrite length_map, length_range in Hn.
    exact (nth_map_range (fun i => nth i l d) (length l) n d Hn).
Qed.

Lemma firstn_1_skipn {A : Type} (l : list A) (i : nat) (d : A) :
  i < length l -> firstn 1 (skipn i l) = [nth i l d].
Proof.
  revert i. induction l as [| a l IH]; intros i Hi; [simpl in Hi; lia |].
  destruct i as [| i]; [reflexivity |].
  cbn [skipn nth]. apply IH. simpl in Hi. lia.
Qed.

Lemma chunk_concat_uniform {A : Type} (m : nat) (ls : list (list A)) (i : nat) :
  Forall (fun l => length l = m) ls -> i < length ls ->
  firstn m (skipn (i * m) (concat ls)) = nth i ls [].
Proof.
  intros Hall. revert i.
  induction Hall as [| l ls Hl _ IH]; intros i Hi; [simpl in Hi; lia |].
  cbn [concat]. destruct i as [| i].
  - cbn [Nat.mul skipn nth]. rewrite firstn_app, Hl, Nat.sub_diag.
    rewrite firstn_all2 by lia. cbn [firstn]. apply app_nil_r.
  - cbn [nth]. rewrite skipn_app, skipn_all2 by (simpl; lia).
    cbn [app]. replace (S i * m - length l) with (i * m) by (simpl; lia).
    apply IH. simpl in Hi. lia.
Qed.

Lemma nth_padded {A : Type} (z r d : A) (i n k : nat) :
  k < i + 1 + n ->
  nth k (repeat z i ++ [r] ++ repeat z n) d = if Nat.eqb k i then r else z.
Proof.
  intros Hk. destruct (Nat.eqb_spec k i) as [-> | Hne].
  - rewrite app_nth2 by (rewrite repeat_length; lia).
    rewrite repeat_length, Nat.sub_diag. reflexivity.
  - destruct (Nat.lt_ge_cases k i) as [Hlt | Hge].
    + rewrite app_nth1 by (rewrite repeat_length; exact Hlt).
      apply nth_repeat_lt. exact Hlt.
    + rewrite app_nth2 by (rewrite repeat_length; exact Hge).
      rewrite repeat_length.
      destruct (k - i) as [| j] eqn:E; [lia |].
      cbn [app nth]. apply nth_repeat_lt. lia.
Qed.

Lemma concat_singletons {A B : Type} (f : B -> A) (l : list B) :
  concat (map (fun x => [f x]) l) = map f l.
Proof.
  induction l as [| x l IH]; [reflexivity |].
  cbn [map concat app]. rewrite IH. reflexivity.
Qed.

Lemma wf_lengths (f : filter4) (h w c m : nat) :
  fshape f = (h, w, c, m) -> well_formed f ->
  length (fdata f) = h /\
  (forall y, y < h -> length (nth y (fdata f) []) = w) /\
  (forall y x, y < h -> x < w ->
     length (nth x (nth y (fdata f) []) []) = c) /\
  (forall y x k, y < h -> x < w -> k < c ->
     length (nth k (nth x (nth y (fdata f) []) []) []) = m).
Proof.
  intros Hs Hwf. unfold well_formed in Hwf. rewrite Hs in Hwf.
  destruct Hwf as [Hh Hplanes]. rewrite Forall_forall in Hplanes.
  assert (Hplane : forall y, y < h ->
            length (nth y (fdata f) []) = w /\
            Forall (fun chans => length chans = c /\
                      Forall (fun row => length row = m) chans)
                   (nth y (fdata f) [])).
  { intros y Hy. apply Hplanes. apply nth_In. lia. }
  assert (Hchans : forall y x, y < h -> x < w ->
            length (nth x (nth y (fdata f) []) []) = c /\
            Forall (fun row => length row = m)
                   (nth x (nth y (fdata f) []) [])).
  { intros y x Hy Hx. destruct (Hplane y Hy) as [Hw Hall].
    rewrite Forall_forall in Hall. apply Hall. apply nth_In. lia. }
  split; [exact Hh | split; [| split]].
  - intros y Hy. apply Hplane. exact Hy.
  - intros y x Hy Hx. apply Hchans; assumption.
  - intros y x k Hy Hx Hk. destruct (Hchans y x Hy Hx) as [Hc Hall].
    rewrite Forall_forall in Hall. apply Hall. apply nth_In. lia.
Qed.

Lemma zeros_at (h w c m y x : nat) :
  y < h -> x < w ->
  nth x (nth y (zeros h w c m) []) [] = repeat (repeat (Fin 0%R) m) c.
Proof.
  intros Hy Hx. unfold zeros.
  rewrite nth_repeat_lt by exact Hy. apply nth_repeat_lt. exact Hx.
Qed.

Lemma slice_channel_at (x4 : data4) (y x i : nat) :
  y < length x4 -> x < length (nth y x4 []) ->
  i < length (nth x (nth y x4 []) []) ->
  nth x (nth y (slice_channel i x4) []) []
  = [nth i (nth x (nth y x4 []) []) []].
Proof.
  intros Hy Hx Hi. unfold slice_channel.
  rewrite nth_map_lt with (d' := []) by exact Hy.
  rewrite nth_map_lt with (d' := []) by exact Hx.
  apply firstn_1_skipn. exact Hi.
Qed.

(** One pass of the forward loop: at every position, channel [i] keeps its
    row and every other channel is a row of zeros. *)
Lemma in_channel_at (f : filter4) (h w c m y x i : nat) :
  fshape f = (h, w, c, m) -> well_formed f ->
  y < h -> x < w -> i < c ->
  nth x (nth y (in_channel h w c m (fdata f) i) []) []
  = repeat (repeat (Fin 0%R) m) i
    ++ [nth i (nth x (nth y (fdata f) []) []) []]
    ++ repeat (repeat (Fin 0%R) m) (c - (i + 1)).
Proof.
  intros Hs Hwf Hy Hx Hi.
  destruct (wf_lengths f h w c m Hs Hwf) as [Hh [Hw [Hc _]]].
  unfold in_channel, concat_axis2.
  rewrite nth_map_range by exact Hy. rewrite nth_map_range by exact Hx.
  rewrite !map_app. cbn [map].
  rewrite slice_channel_at
    by (rewrite ?Hh, ?Hw, ?Hc; assumption).
  destruct (Nat.ltb_spec 0 i) as [Hi0 | Hi0];
    destruct (Nat.ltb_spec (i + 1) c) as [Hic | Hic]; cbn [map app concat];
    rewrite ?zeros_at by assumption; rewrite ?app_nil_r.
  - reflexivity.
  - replace (c - (i + 1)) with 0 by lia. reflexivity.
  - replace i with 0 by lia. reflexivity.
  - replace i with 0 by lia. replace (c - (0 + 1)) with 0 by lia. reflexivity.
Qed.

(** The blocks of row [(y, x, k)] of the forward transform. *)
Lemma forward_row (f : filter4) (h w c m y x k : nat) :
  fshape f = (h, w, c, m) -> well_formed f ->
  y < h -> x < w -> k < c ->
  nth k (nth x (nth y
    (concat_axis3 h w c (map (in_channel h w c m (fdata f)) (range c)))
    []) []) []
  = concat (map (fun i =>
      if Nat.eqb k i then nth k (nth x (nth y (fdata f) []) []) []
      else repeat (Fin 0%R) m) (range c)).
Proof.
  intros Hs Hwf Hy Hx Hk. unfold concat_axis3.
  rewrite nth_map_range by exact Hy. rewrite nth_map_range by exact Hx.
  rewrite nth_map_range by exact Hk.
  rewrite map_map. f_equal. apply map_ext_in. intros i Hi.
  apply in_range in Hi.
  rewrite (in_channel_at f h w c m y x i Hs Hwf Hy Hx Hi).
  rewrite nth_padded by lia.
  destruct (Nat.eqb_spec k i) as [-> | _]; reflexivity.
Qed.

Lemma forward_row_uniform (f : filter4) (h w c m y x k : nat) :
  fshape f = (h, w, c, m) -> well_formed f ->
  y < h -> x < w -> k < c ->
  Forall (fun l => length l = m)
    (map (fun i =>
       if Nat.eqb k i then nth k (nth x (nth y (fdata f) []) []) []
       else repeat (Fin 0%R) m) (range c)).
Proof.
  intros Hs Hwf Hy Hx Hk.
  destruct (wf_lengths f h w c m Hs Hwf) as [_ [_ [_ Hm]]].
  apply Forall_forall. intros l Hl.
  apply in_map_iff in Hl. destruct Hl as [i [<- _]].
  destruct (Nat.eqb k i).
  - apply Hm; assumption.
  - apply repeat_length.
Qed.

(** Reading back the diagonal blocks of the forward transform gives the
    entries of the depthwise filter. *)
Lemma backward_forward_data (f : filter4) (h w c m : nat) :
  fshape f = (h, w, c, m) -> well_formed f ->
  concat_axis2 h w
    (map (diagonal_slice c m
            (concat_axis3 h w c
               (map (in_channel h w c m (fdata f)) (range c))))
         (range c))
  = fdata f.
Proof.
  intros Hs Hwf.
  destruct (wf_lengths f h w c m Hs Hwf) as [Hh [Hw [Hc _]]].
  unfold concat_axis2.
  transitivity (map (fun y => nth y (fdata f) []) (range h));
    [| rewrite <- Hh; apply map_nth_range].
  apply map_ext_in. intros y Hy. apply in_range in Hy.
  transitivity (map (fun x => nth x (nth y (fdata f) []) []) (range w));
    [| rewrite <- (Hw y Hy); apply map_nth_range].
  apply map_ext_in. intros x Hx. apply in_range in Hx.
  rewrite map_map.
  transitivity (map (fun i => nth i (nth x (nth y (fdata f) []) []) [])
                    (range c));
    [| rewrite <- (Hc y x Hy Hx); apply map_nth_range].
  rewrite <- (concat_singletons
                (fun i => nth i (nth x (nth y (fdata f) []) []) []) (range c)).
  f_equal.
  apply map_ext_in. intros i Hi. apply in_range in Hi.
  unfold diagonal_slice.
  rewrite nth_map_lt with (d' := [])
    by (unfold concat_axis3; rewrite length_map, length_range; exact Hy).
  rewrite nth_map_lt with (d' := [])
    by (unfold concat_axis3; rewrite nth_map_range by exact Hy;
        rewrite length_map, length_range; exact Hx).
  f_equal. unfold split_last. rewrite nth_map_range by exact Hi.
  rewrite (forward_row f h w c m y x i Hs Hwf Hy Hx Hi).
  rewrite chunk_concat_uniform.
  - rewrite nth_map_range by exact Hi. rewrite Nat.eqb_refl. reflexivity.
  - apply (forward_row_uniform f h w c m y x i Hs Hwf Hy Hx Hi).
  - rewrite length_map, length_range. exact Hi.
Qed.

(** C8.  For a well-formed depthwise filter with at least one input
    channel, the forward transform returns a filter of shape
    [[height; width; in_channels; in_channels * channel_multiplier]] that
    is zero at every off-diagonal channel block and that the backward
    transform maps back to the depthwise filter; the backward transform
    raises whenever [out_channels] is not a multiple of [in_channels]. *)
Theorem depthwise_round_trip :
  (forall (f : filter4) (h w c m : nat),
      fshape f = (h, w, c, m) -> well_formed f -> 0 < c ->
      exists g : filter4,
        depthwise_conv2d_filter_to_conv2d_filter f = Ok g /\
        fshape g = (h, w, c, c * m) /\
        conv2d_filter_to_depthwise_conv2d_filter g = Ok f /\
        (forall y x j i k : nat,
            y < h -> x < w -> j < c -> i < c -> k < m -> i <> j ->
            entry4 g y x j (i * m + k) = Fin 0%R)) /\
  (forall (g : filter4) (h w c o : nat),
      fshape g = (h, w, c, o) -> ~ Nat.divide c o ->
      raises (conv2d_filter_to_depthwise_conv2d_filter g)).
Proof.
  split.
  - intros f h w c m Hs Hwf Hc.
    exists {| fshape := (h, w, c, c * m);
              fdata := concat_axis3 h w c
                         (map (in_channel h w c m (fdata f)) (range c)) |}.
    split; [| split; [| split]].
    + unfold depthwise_conv2d_filter_to_conv2d_filter. rewrite Hs.
      destruct c as [| c']; [lia |]. reflexivity.
    + reflexivity.
    + unfold conv2d_filter_to_depthwise_conv2d_filter. cbn [fshape fdata].
      destruct (Nat.eqb_spec c 0) as [E | _]; [lia |].
      rewrite (Nat.mul_comm c m), Nat.Div0.mod_mul. cbn [Nat.eqb negb].
      rewrite Nat.div_mul by lia.
      rewrite (backward_forward_data f h w c m Hs Hwf).
      destruct f as [fs fd]. cbn [fshape fdata] in *. rewrite Hs.
      reflexivity.
    + intros y x j i k Hy Hx Hj Hi Hk Hne. unfold entry4. cbn [fdata].
      rewrite (forward_row f h w c m y x j Hs Hwf Hy Hx Hj).
      rewrite (nth_concat_uniform m)
        by (try exact Hk;
            apply (forward_row_uniform f h w c m y x j Hs Hwf Hy Hx Hj)).
      rewrite nth_map_range by exact Hi.
      destruct (Nat.eqb_spec j i) as [E | _]; [congruence |].
      apply nth_repeat_lt. exact Hk.
  - intros g h w c o Hs Hdiv.
    unfold conv2d_filter_to_depthwise_conv2d_filter. rewrite Hs.
    destruct (Nat.eqb_spec c 0) as [E | Hc].
    + exists ZeroDivisionError. reflexivity.
    + destruct (Nat.eqb_spec (o mod c) 0) as [E | _].
      * exfalso. apply Hdiv. apply Nat.Lcm0.mod_divide. exact E.
      * exists ValueError. reflexivity.
Qed.

Lemma depthwise_round_trip_witness :
  exists g : filter4,
    depthwise_conv2d_filter_to_conv2d_filter example_filter = Ok g /\
    fshape g = (1, 1, 2, 2 * 1) /\
    conv2d_filter_to_depthwise_conv2d_filter g = Ok example_filter /\
    (forall y x j i k : nat,
        y < 1 -> x < 1 -> j < 2 -> i < 2 -> k < 1 -> i <> j ->
        entry4 g y x j (i * 1 + k) = Fin 0%R).
Proof.
  apply (proj1 depthwise_round_trip example_filter 1 1 2 1).
  - reflexivity.
  - unfold well_formed, example_filter. cbn [fshape fdata].
    split; [reflexivity |].
    repeat (constructor; try split; try reflexivity).
  - lia.
Defined.

End DepthwiseFacts.

(** ** Tower and use normalisation *)

Section TowersFacts.

Import Towers.
Local Open Scope nat_scope.
Local Open Scope string_scope.

(** The single-use mix-in rejects every unknown strategy. *)
Lemma process_data_single_use_rejects (TOWER_STRATEGY : string)
    (inputs : list pyobj) (grads_list : list (list pyobj)) :
  TOWER_STRATEGY <> "concat" -> TOWER_STRATEGY <> "separate" ->
  InputOutputMultiTower._process_data TOWER_STRATEGY inputs grads_list
  = Raise ValueError.
Proof.
  intros Hc Hs. unfold InputOutputMultiTower._process_data.
  apply String.eqb_neq in Hc. apply String.eqb_neq in Hs.
  rewrite Hc, Hs. reflexivity.
Qed.

(** The multi-use mix-in does so too when the inputs arrive as lists over
    uses. *)
Lemma process_data_multi_use_lists_reject (TOWER_STRATEGY : string)
    (_num_uses : option nat) (i0 : pyobj) (inputs : list pyobj)
    (grads_list : list (list pyobj)) :
  TOWER_STRATEGY <> "concat" -> TOWER_STRATEGY <> "separate" ->
  is_sequence i0 = true ->
  raises (InputOutputMultiTowerMultiUse._process_data TOWER_STRATEGY _num_uses
            (i0 :: inputs) grads_list).
Proof.
  intros Hc Hs Hseq.
  apply String.eqb_neq in Hc. apply String.eqb_neq in Hs.
  unfold InputOutputMultiTowerMultiUse._process_data,
    InputOutputMultiTowerMultiUse.process_inputs.
  cbn [first bind]. rewrite Hseq.
  destruct (InputOutputMultiTowerMultiUse.set_num_uses _num_uses
              (length (items_of i0))) as [nu | e];
    [| exists e; reflexivity].
  cbn [bind].
  destruct (all_len_eq (length (items_of i0)) (i0 :: inputs)) as [same | e];
    [| exists e; reflexivity].
  cbn [bind]. destruct same; cbn [negb].
  - rewrite Hc, Hs. exists ValueError. reflexivity.
  - exists ValueError. reflexivity.
Qed.

(** C9, on the code.  With an unknown strategy, a multi-use block whose
    inputs and gradients arrive as single tensors, uses folded into the
    batch dimension, and whose number of uses was supplied, gets its data
    back unprocessed: no error is raised. *)
Theorem process_data_folded_format_accepts_unknown_strategy :
  InputOutputMultiTowerMultiUse._process_data "bogus" (Some 2)
    [Tensor 0] [[Tensor 1]]
  = Ok (PyList [Tensor 0], PyList [PyList [Tensor 1]], Some 2).
Proof. reflexivity. Qed.

End TowersFacts.

(** * Further properties *)

(** ** The trace-norm ratio *)

Section TraceNormFacts.

Import Damping.
Local Open Scope R_scope.

Lemma trace_ok_shape0 (cov : tensor) (t : tfloat) :
  _trace cov = Ok t -> shape0 cov = Ok (dim cov).
Proof.
  unfold _trace, shape0, dim.
  destruct (shape cov) as [| a [| b [| c l]]]; simpl; intros H;
    try discriminate; reflexivity.
Qed.

Lemma pi_of_finite_traces (A B : tensor) (a b : R) :
  _trace A = Ok (Fin a) -> _trace B = Ok (Fin b) ->
  b * INR (dim A) <> 0 ->
  0 <= a * INR (dim B) / (b * INR (dim A)) ->
  compute_pi_tracenorm A B
  = Ok (Fin (sqrt (a * INR (dim B) / (b * INR (dim A))))).
Proof.
  intros HA HB Hden Hratio. unfold compute_pi_tracenorm.
  rewrite HA, (trace_ok_shape0 B _ HB). cbn [bind].
  rewrite HB, (trace_ok_shape0 A _ HA). cbn [bind fmul of_nat].
  rewrite fdiv_fin by exact Hden. rewrite fsqrt_fin by exact Hratio.
  reflexivity.
Qed.

Lemma ratio_pos (a b m n : R) :
  0 < a -> 0 < b -> 0 < m -> 0 < n -> 0 < a * n / (b * m).
Proof.
  intros Ha Hb Hm Hn. apply Rdiv_lt_0_compat; nra.
Qed.

(** X1.  Positive finite traces of two covariances of non-zero dimension give a
    positive finite pi, whose square is the ratio
    [(trace A * dim B) / (trace B * dim A)]. *)
Theorem compute_pi_tracenorm_positive :
  forall (A B : tensor) (a b : R),
    _trace A = Ok (Fin a) -> _trace B = Ok (Fin b) ->
    0 < a -> 0 < b -> (0 < dim A)%nat -> (0 < dim B)%nat ->
    exists p : R,
      compute_pi_tracenorm A B = Ok (Fin p) /\ 0 < p /\
      p * p = a * INR (dim B) / (b * INR (dim A)).
Proof.
  intros A B a b HA HB Ha Hb HdA HdB.
  assert (0 < INR (dim A)) by (apply lt_0_INR; exact HdA).
  assert (0 < INR (dim B)) by (apply lt_0_INR; exact HdB).
  pose proof (ratio_pos a b (INR (dim A)) (INR (dim B)) Ha Hb H H0) as Hr.
  exists (sqrt (a * INR (dim B) / (b * INR (dim A)))).
  split; [| split].
  - apply pi_of_finite_traces; try assumption; nra.
  - apply sqrt_lt_R0. exact Hr.
  - apply sqrt_sqrt. lra.
Qed.

Lemma trace_cov_trace_4 : _trace DampingSetup.cov_trace_4 = Ok (Fin 4).
Proof.
  unfold _trace, DampingSetup.cov_trace_4, fsum.
  cbn [shape data fold_left fadd]. do 2 f_equal. ring.
Defined.

Lemma trace_cov_trace_1 : _trace DampingSetup.cov_trace_1 = Ok (Fin 1).
Proof.
  unfold _trace, DampingSetup.cov_trace_1, fsum.
  cbn [shape data fold_left fadd]. do 2 f_equal. ring.
Defined.

Lemma compute_pi_tracenorm_positive_witness :
  exists p : R,
    compute_pi_tracenorm DampingSetup.cov_trace_4 DampingSetup.cov_trace_1
    = Ok (Fin p) /\ 0 < p /\
    p * p = 4 * INR (dim DampingSetup.cov_trace_1)
            / (1 * INR (dim DampingSetup.cov_trace_4)).
Proof.
  apply (compute_pi_tracenorm_positive DampingSetup.cov_trace_4
           DampingSetup.cov_trace_1 4 1).
  - exact trace_cov_trace_4.
  - exact trace_cov_trace_1.
  - lra.
  - lra.
  - unfold dim, DampingSetup.cov_trace_4. simpl. lia.
  - unfold dim, DampingSetup.cov_trace_1. simpl. lia.
Defined.

(** X2.  Swapping the two covariances inverts pi. *)
Theorem compute_pi_tracenorm_swap :
  forall (A B : tensor) (a b : R),
    _trace A = Ok (Fin a) -> _trace B = Ok (Fin b) ->
    0 < a -> 0 < b -> (0 < dim A)%nat -> (0 < dim B)%nat ->
    exists p : R,
      0 < p /\
      compute_pi_tracenorm A B = Ok (Fin p) /\
      compute_pi_tracenorm B A = Ok (Fin (/ p)).
Proof.
  intros A B a b HA HB Ha Hb HdA HdB.
  assert (Hm : 0 < INR (dim A)) by (apply lt_0_INR; exact HdA).
  assert (Hn : 0 < INR (dim B)) by (apply lt_0_INR; exact HdB).
  pose proof (ratio_pos a b (INR (dim A)) (INR (dim B)) Ha Hb Hm Hn) as Hr.
  pose proof (ratio_pos b a (INR (dim B)) (INR (dim A)) Hb Ha Hn Hm) as Hr'.
  exists (sqrt (a * INR (dim B) / (b * INR (dim A)))).
  split; [| split].
  - apply sqrt_lt_R0. exact Hr.
  - apply pi_of_finite_traces; try assumption; nra.
  - rewrite (pi_of_finite_traces B A b a HB HA) by nra.
    rewrite <- sqrt_inv. do 3 f_equal. field. nra.
Qed.

Lemma compute_pi_tracenorm_swap_witness :
  exists p : R,
    0 < p /\
    compute_pi_tracenorm DampingSetup.cov_trace_4 DampingSetup.cov_trace_1
    = Ok (Fin p) /\
    compute_pi_tracenorm DampingSetup.cov_trace_1 DampingSetup.cov_trace_4
    = Ok (Fin (/ p)).
Proof.
  apply (compute_pi_tracenorm_swap DampingSetup.cov_trace_4
           DampingSetup.cov_trace_1 4 1).
  - exact trace_cov_trace_4.
  - exact trace_cov_trace_1.
  - lra.
  - lra.
  - unfold dim, DampingSetup.cov_trace_4. simpl. lia.
  - unfold dim, DampingSetup.cov_trace_1. simpl. lia.
Defined.

(** X3.  Which error [compute_pi_tracenorm] raises: the left covariance is
    examined first and a rank other than 1 or 2 is a [ValueError]; with a
    valid left covariance, a scalar right covariance is an [IndexError]
    from its empty shape, and any other invalid rank a [ValueError]. *)
Theorem compute_pi_tracenorm_error_order :
  forall A B : tensor,
    (~ (rank A = 1%nat \/ rank A = 2%nat) ->
     compute_pi_tracenorm A B = Raise ValueError) /\
    ((rank A = 1%nat \/ rank A = 2%nat) -> rank B = 0%nat ->
     compute_pi_tracenorm A B = Raise IndexError) /\
    ((rank A = 1%nat \/ rank A = 2%nat) -> (2 < rank B)%nat ->
     compute_pi_tracenorm A B = Raise ValueError).
Proof.
  intros A B. split; [| split].
  - intros HA. unfold compute_pi_tracenorm.
    rewrite (invalid_rank_trace A HA). reflexivity.
  - intros HA HB. unfold compute_pi_tracenorm.
    destruct (valid_rank_trace A HA) as [-> _]. cbn [bind].
    unfold shape0, rank in *.
    destruct (shape B); [reflexivity | discriminate HB].
  - intros HA HB. unfold compute_pi_tracenorm.
    destruct (valid_rank_trace A HA) as [-> _]. cbn [bind].
    assert (HB' : ~ (rank B = 1%nat \/ rank B = 2%nat)) by lia.
    unfold shape0. unfold rank in HB.
    destruct (shape B) as [| n l] eqn:E; [simpl in HB; lia |].
    cbn [bind]. rewrite (invalid_rank_trace B HB'). reflexivity.
Qed.

Lemma compute_pi_tracenorm_error_order_witness :
  compute_pi_tracenorm unit_cov DampingSetup.scalar_tensor = Raise IndexError.
Proof.
  apply (proj1 (proj2 (compute_pi_tracenorm_error_order unit_cov
                         DampingSetup.scalar_tensor))).
  - left. reflexivity.
  - reflexivity.
Defined.

End TraceNormFacts.

(** ** Damping thunks *)

Section DampingSetupFacts.

Import Damping DampingSetup.
Local Open Scope R_scope.

Lemma fmul_zero_inf_of_sgn (s : sgn) : fmul (Fin 0) (inf_of_sgn s) = NaN.
Proof.
  destruct s; cbn [inf_of_sgn fmul]; rewrite ?sgn_of_zero; reflexivity.
Qed.

(** X4.  The damping of the diagonal convolution block.  With the default
    power 1 it is the damping itself when the number of locations is not
    zero, and not a number when it is zero; with the power 0 it is the
    damping times the number of locations. *)
Theorem conv_diagonal_damping_func_value :
  forall (pow : Z -> R -> tfloat) (d : R) (n : Z) (st : cov_state),
    (forall k : Z, pow k 1 = of_Z k) ->
    (n <> 0%Z ->
     call (conv_diagonal_damping_func pow 1 n (Fin d)) st = Ok (Fin d)) /\
    call (conv_diagonal_damping_func pow 1 0 (Fin d)) st = Ok NaN /\
    call (conv_diagonal_damping_func pow 0 n (Fin d)) st
    = Ok (Fin (IZR n * d)).
Proof.
  intros pow d n st Hpow.
  unfold call, conv_diagonal_damping_func, _package_func, normalize_damping.
  cbn [_func]. split; [| split].
  - intros Hn. destruct (Req_dec_T 1 0) as [E | _]; [lra |].
    rewrite Hpow. unfold of_Z.
    assert (IZR n <> 0) by (apply not_0_IZR; exact Hn).
    rewrite fdiv_fin by assumption. cbn [fmul]. do 2 f_equal. field.
    assumption.
  - destruct (Req_dec_T 1 0) as [E | _]; [lra |].
    rewrite Hpow. unfold of_Z. rewrite fdiv_fin_zero.
    rewrite fmul_zero_inf_of_sgn. reflexivity.
  - destruct (Req_dec_T 0 0) as [_ | N]; [| contradiction].
    reflexivity.
Qed.

Lemma example_pow_one (k : Z) : example_pow k 1 = of_Z k.
Proof.
  unfold example_pow.
  destruct (Req_dec_T 1 1) as [_ | N]; [reflexivity | contradiction].
Defined.

Lemma conv_diagonal_damping_func_value_witness :
  call (conv_diagonal_damping_func example_pow 1 49 (Fin 3))
       (unit_cov, unit_cov)
  = Ok (Fin 3).
Proof.
  apply (proj1 (conv_diagonal_damping_func_value example_pow 3 49
                  (unit_cov, unit_cov) example_pow_one)).
  discriminate.
Defined.

(** X5.  The two damping thunks of a Kronecker-product block.  When the
    normalised damping is a non-negative number [d]: in the "tracenorm"
    mode with a positive finite pi the input thunk returns
    [sqrt d * pi], the output thunk [sqrt d / pi], and their product is
    [d]; in the "off" mode both return [sqrt d]. *)
Theorem kronecker_damping_thunks_split :
  forall (pow : Z -> R -> tfloat) (P : R) (input_name output_name : string)
         (damping : tfloat) (normalization : option Z) (st : cov_state)
         (d : R),
    match normalization with
    | Some n => normalize_damping pow P damping n
    | None => damping
    end = Fin d ->
    0 <= d ->
    (forall p : R,
        compute_pi_tracenorm (fst st) (snd st) = Ok (Fin p) -> 0 < p ->
        call (fst (_setup_damping pow P PI_TRACENORM_NAME input_name
                     output_name damping normalization)) st
        = Ok (Fin (sqrt d * p)) /\
        call (snd (_setup_damping pow P PI_TRACENORM_NAME input_name
                     output_name damping normalization)) st
        = Ok (Fin (sqrt d / p)) /\
        (sqrt d * p) * (sqrt d / p) = d) /\
    (call (fst (_setup_damping pow P PI_OFF_NAME input_name output_name
                  damping normalization)) st
     = Ok (Fin (sqrt d)) /\
     call (snd (_setup_damping pow P PI_OFF_NAME input_name output_name
                  damping normalization)) st
     = Ok (Fin (sqrt d)) /\
     sqrt d * sqrt d = d).
Proof.
  intros pow P input_name output_name damping normalization st d Hd Hpos.
  unfold call, _setup_damping, _package_func, compute_damping.
  cbn [fst snd _func]. rewrite Hd. rewrite fsqrt_fin by exact Hpos.
  split.
  - intros p Hpi Hp. unfold compute_pi_adjusted_damping.
    rewrite String.eqb_refl, Hpi. cbn [bind subscript fmul].
    rewrite fdiv_fin by lra.
    split; [reflexivity | split; [reflexivity |]].
    transitivity (sqrt d * sqrt d); [field; lra | apply sqrt_sqrt; exact Hpos].
  - unfold compute_pi_adjusted_damping. cbn [String.eqb PI_OFF_NAME
      PI_TRACENORM_NAME Ascii.eqb Bool.eqb]. cbn [bind subscript].
    split; [reflexivity | split; [reflexivity |]].
    apply sqrt_sqrt. exact Hpos.
Qed.

Lemma kronecker_damping_thunks_split_witness :
  call (fst (_setup_damping example_pow 1 PI_OFF_NAME "in" "out" (Fin 8)
               (Some 2%Z))) (unit_cov, unit_cov)
  = Ok (Fin (sqrt 4)) /\
  call (snd (_setup_damping example_pow 1 PI_OFF_NAME "in" "out" (Fin 8)
               (Some 2%Z))) (unit_cov, unit_cov)
  = Ok (Fin (sqrt 4)) /\
  sqrt 4 * sqrt 4 = 4.
Proof.
  assert (Hd : normalize_damping example_pow 1 (Fin 8) 2 = Fin 4).
  { unfold normalize_damping.
    destruct (Req_dec_T 1 0) as [E | _]; [lra |].
    rewrite example_pow_one. unfold of_Z. rewrite fdiv_fin by lra.
    f_equal. lra. }
  assert (Hpos : 0 <= 4) by lra.
  exact (proj2 (kronecker_damping_thunks_split example_pow 1 "in" "out"
                  (Fin 8) (Some 2%Z) (unit_cov, unit_cov) 4 Hd Hpos)).
Defined.

(** X6.  With a [PI_TYPE] that is neither "tracenorm" nor "off", and a
    normalised damping that is a non-negative number, [compute_damping]
    returns [None] and both thunks raise [TypeError] when called. *)
Theorem kronecker_damping_thunks_unknown_mode :
  forall (pow : Z -> R -> tfloat) (P : R) (PI_TYPE : string)
         (input_name output_name : string) (damping : tfloat)
         (normalization : option Z) (st : cov_state) (d : R),
    match normalization with
    | Some n => normalize_damping pow P damping n
    | None => damping
    end = Fin d ->
    0 <= d ->
    PI_TYPE <> PI_TRACENORM_NAME -> PI_TYPE <> PI_OFF_NAME ->
    call (fst (_setup_damping pow P PI_TYPE input_name output_name damping
                 normalization)) st = Raise TypeError /\
    call (snd (_setup_damping pow P PI_TYPE input_name output_name damping
                 normalization)) st = Raise TypeError.
Proof.
  intros pow P PI_TYPE input_name output_name damping normalization st d
    _ _ Ht Ho.
  apply String.eqb_neq in Ht. apply String.eqb_neq in Ho.
  unfold call, _setup_damping, _package_func, compute_damping,
    compute_pi_adjusted_damping.
  cbn [fst snd _func]. rewrite Ht, Ho. split; reflexivity.
Qed.

Lemma kronecker_damping_thunks_unknown_mode_witness :
  call (fst (_setup_damping example_pow 1 "trace" "in" "out" (Fin 8) None))
       (unit_cov, unit_cov) = Raise TypeError /\
  call (snd (_setup_damping example_pow 1 "trace" "in" "out" (Fin 8) None))
       (unit_cov, unit_cov) = Raise TypeError.
Proof.
  apply (kronecker_damping_thunks_unknown_mode example_pow 1 "trace" "in"
           "out" (Fin 8) None (unit_cov, unit_cov) 8).
  - reflexivity.
  - lra.
  - discriminate.
  - discriminate.
Defined.

(** X7.  The identities of the damping thunks tell the thunks apart: an input
    thunk never shares its identity with an output thunk, and two input
    thunks, or two output thunks, with one identity were set up with the
    same factor names, damping and normalisation. *)
Theorem damping_func_id_injective :
  forall (pow pow' : Z -> R -> tfloat) (P P' : R) (PI_TYPE PI_TYPE' : string)
         (i o i' o' : string) (d d' : tfloat) (nz nz' : option Z),
    let s := _setup_damping pow P PI_TYPE i o d nz in
    let s' := _setup_damping pow' P' PI_TYPE' i' o' d' nz' in
    func_id (fst s) <> func_id (snd s') /\
    (func_id (fst s) = func_id (fst s') ->
     i = i' /\ o = o' /\ d = d' /\ nz = nz') /\
    (func_id (snd s) = func_id (snd s') ->
     i = i' /\ o = o' /\ d = d' /\ nz = nz').
Proof.
  intros pow pow' P P' PI_TYPE PI_TYPE' i o i' o' d d' nz nz' s s'.
  subst s s'. unfold func_id, _setup_damping, _package_func, damping_id.
  cbn [fst snd _func_id].
  destruct nz as [n |]; destruct nz' as [n' |]; cbn [map app];
    (split; [| split]); intros H; try discriminate H;
    injection H as; subst; repeat split; reflexivity.
Qed.

End DampingSetupFacts.

Lemma damping_func_id_injective_witness :
  DampingSetup.func_id
    (fst (DampingSetup._setup_damping DampingSetup.example_pow 1 "off"
            "in" "out" (Fin 1%R) None))
  <> DampingSetup.func_id
       (snd (DampingSetup._setup_damping DampingSetup.example_pow 1 "off"
               "in" "out" (Fin 1%R) None)).
Proof.
  apply (proj1 (damping_func_id_injective DampingSetup.example_pow
                  DampingSetup.example_pow 1 1 "off" "off" "in" "out" "in"
                  "out" (Fin 1%R) (Fin 1%R) None None)).
Defined.

(** ** Tower registration *)

Section RegistrationFacts.

Import Towers Registration.
Local Open Scope nat_scope.

Lemma fold_left_add (l : list Z) (a : Z) :
  fold_left Z.add l a = (a + fold_right Z.add 0 l)%Z.
Proof.
  revert a. induction l as [| x l IH]; intros a; cbn [fold_left fold_right].
  - lia.
  - rewrite IH. lia.
Qed.

Lemma register_batch_sizes (b : BatchSizes.block) (sizes : list Z) :
  fold_left BatchSizes.register_additional_tower sizes b = b ++ sizes.
Proof.
  revert b. induction sizes as [| x sizes IH]; intros b; cbn [fold_left].
  - rewrite app_nil_r. reflexivity.
  - rewrite IH. unfold BatchSizes.register_additional_tower.
    rewrite <- app_assoc. reflexivity.
Qed.

Lemma wrap32_fits (z : Z) : BatchSizes.fits32 z -> BatchSizes.wrap32 z = z.
Proof.
  unfold BatchSizes.fits32, BatchSizes.wrap32. intros H.
  rewrite Z.mod_small; lia.
Qed.

(** X8.  Registering towers on a [FullFB] or [NaiveDiagonalFB] one after the
    other adds one registered tower per call; and when at least one tower
    is registered, every batch size is a 32-bit integer and so is their
    sum, [_batch_size] is the sum of everything registered. *)
Theorem batch_sizes_accumulate :
  forall (b : BatchSizes.block) (sizes : list Z),
    let b' := fold_left BatchSizes.register_additional_tower sizes b in
    BatchSizes.num_registered_towers b'
    = BatchSizes.num_registered_towers b + length sizes /\
    (b ++ sizes <> [] ->
     Forall BatchSizes.fits32 (b ++ sizes) ->
     BatchSizes.fits32 (fold_right Z.add 0 b + fold_right Z.add 0 sizes)%Z ->
     BatchSizes._batch_size b'
     = (fold_right Z.add 0 b + fold_right Z.add 0 sizes)%Z).
Proof.
  intros b sizes b'. subst b'. rewrite register_batch_sizes. split.
  - unfold BatchSizes.num_registered_towers. apply length_app.
  - intros _ _ Hfit. unfold BatchSizes._batch_size.
    rewrite fold_left_app, !fold_left_add.
    replace (0 + fold_right Z.add 0 b + fold_right Z.add 0 sizes)%Z
      with (fold_right Z.add 0 b + fold_right Z.add 0 sizes)%Z by lia.
    apply wrap32_fits. exact Hfit.
Qed.

Lemma batch_sizes_accumulate_witness :
  BatchSizes._batch_size
    (fold_left BatchSizes.register_additional_tower [4; 6]%Z BatchSizes.init)
  = (fold_right Z.add 0 BatchSizes.init + fold_right Z.add 0 [4; 6])%Z.
Proof.
  apply (proj2 (batch_sizes_accumulate BatchSizes.init [4; 6]%Z)).
  - discriminate.
  - unfold BatchSizes.fits32, BatchSizes.init. cbn [app].
    repeat constructor; lia.
  - unfold BatchSizes.fits32, BatchSizes.init. cbn [fold_right]. lia.
Defined.

Lemma register_all_lists (b : InputOutput.block)
    (towers : list (pyobj * pyobj)) :
  InputOutput._inputs (InputOutput.register_all b towers)
  = InputOutput._inputs b ++ map fst towers /\
  InputOutput._outputs (InputOutput.register_all b towers)
  = InputOutput._outputs b ++ map snd towers.
Proof.
  revert b. induction towers as [| t towers IH]; intros b.
  - cbn [InputOutput.register_all fold_left map]. rewrite !app_nil_r.
    split; reflexivity.
  - unfold InputOutput.register_all in *. cbn [fold_left map].
    destruct (IH (InputOutput.register_additional_tower b (fst t) (snd t)))
      as [Hi Ho].
    rewrite Hi, Ho. cbn [InputOutput.register_additional_tower
      InputOutput._inputs InputOutput._outputs].
    rewrite <- !app_assoc. split; reflexivity.
Qed.

(** X9.  On a block with the [InputOutputMultiTower] mix-in, whatever towers are
    registered after construction, the assertion of
    [num_registered_towers] holds and the property returns their number,
    and [tensors_to_compute_grads] is the tuple of the registered outputs
    in the order of registration. *)
Theorem input_output_towers_stay_paired :
  forall towers : list (pyobj * pyobj),
    let b := InputOutput.register_all InputOutput.init towers in
    InputOutput.num_registered_towers b = Ok (length towers) /\
    InputOutput.tensors_to_compute_grads b = PyTuple (map snd towers).
Proof.
  intros towers b. subst b.
  destruct (register_all_lists InputOutput.init towers) as [Hi Ho].
  unfold InputOutput.num_registered_towers,
    InputOutput.tensors_to_compute_grads.
  rewrite Hi, Ho. cbn [InputOutput.init InputOutput._inputs
    InputOutput._outputs app].
  rewrite !length_map, Nat.eqb_refl. split; reflexivity.
Qed.

End RegistrationFacts.

(** ** More on [num_conv_locations] *)

Section ConvLocationsEdgeFacts.

Import ConvLocations.
Local Open Scope Z_scope.

Lemma prod_app (l l' : list Z) : prod (l ++ l') = prod l * prod l'.
Proof.
  unfold prod. induction l as [| x l IH]; cbn [app fold_right].
  - ring.
  - rewrite IH. ring.
Qed.

Lemma spatial_dims_of_shape (batch channels : Z) (dims : list Z) :
  spatial_dims (batch :: dims ++ [channels]) = dims.
Proof. unfold spatial_dims. cbn [tl]. apply removelast_last. Qed.

Lemma prod_exact_division (dims strides : list Z) :
  Forall2 (fun d s => 0 < s /\ (s | d)) dims strides ->
  0 < prod strides /\
  prod dims = prod (zip_with Z.div dims strides) * prod strides.
Proof.
  induction 1 as [| d s dims strides [Hs Hd] _ [IHpos IHeq]];
    cbn [zip_with]; unfold prod in *; cbn [fold_right].
  - split; lia.
  - split; [nia |].
    destruct Hd as [k ->]. rewrite Z.div_mul by lia.
    rewrite IHeq. ring.
Qed.

(** X10.  When every spatial dimension is a multiple of its stride, and the
    spatial dimensions, their product and the product of the strides are
    64-bit integers, [num_conv_locations] is exact: it returns the product
    of the per-dimension quotients, whether the strides are given for the
    spatial dimensions alone or padded with a one for the batch and for the
    channel dimension. *)
Theorem num_conv_locations_exact :
  forall (batch channels : Z) (dims strides : list Z),
    dims <> [] ->
    Forall fits64 dims ->
    fits64 (prod dims) ->
    prod strides < 2 ^ 63 ->
    Forall2 (fun d s => 0 < s /\ (s | d)) dims strides ->
    num_conv_locations (batch :: dims ++ [channels]) (Some strides)
    = NpInt (prod (zip_with Z.div dims strides)) /\
    num_conv_locations (batch :: dims ++ [channels])
                       (Some (1 :: strides ++ [1]))
    = NpInt (prod (zip_with Z.div dims strides)).
Proof.
  intros batch channels dims strides Hne _ Hfit Hlt H.
  destruct (prod_exact_division dims strides H) as [Hpos Heq].
  assert (Hpad : prod (1 :: strides ++ [1]) = prod strides).
  { change (1 :: strides ++ [1]) with ([1] ++ strides ++ [1]).
    rewrite !prod_app. unfold prod at 1 3. cbn [fold_right]. ring. }
  assert (Hne' : strides <> []).
  { destruct H; [congruence | discriminate]. }
  assert (Hy : fits64 (prod strides)) by (unfold fits64; lia).
  assert (Hq : prod dims / prod strides = prod (zip_with Z.div dims strides)).
  { rewrite Heq. apply Z.div_mul. lia. }
  split.
  - rewrite num_conv_locations_some; rewrite ?spatial_dims_of_shape;
      try assumption.
    + rewrite Hq. reflexivity.
    + apply floor_quotient_fits; assumption.
  - rewrite num_conv_locations_some;
      rewrite ?spatial_dims_of_shape, ?Hpad; try assumption.
    + rewrite Hq. reflexivity.
    + discriminate.
    + apply floor_quotient_fits; assumption.
Qed.

Lemma num_conv_locations_exact_witness :
  num_conv_locations (32 :: [28; 28] ++ [3]) (Some [2; 2])
  = NpInt (prod (zip_with Z.div [28; 28] [2; 2])) /\
  num_conv_locations (32 :: [28; 28] ++ [3]) (Some (1 :: [2; 2] ++ [1]))
  = NpInt (prod (zip_with Z.div [28; 28] [2; 2])).
Proof.
  apply num_conv_locations_exact.
  - discriminate.
  - unfold fits64. repeat constructor; lia.
  - unfold fits64, prod. cbn. lia.
  - unfold prod. cbn. lia.
  - assert (H : 0 < 2 /\ (2 | 28)) by (split; [lia | exists 14; reflexivity]).
    constructor; [exact H |]. constructor; [exact H |]. constructor.
Defined.

(** X11.  When the product of the strides, itself below [2^63], exceeds
    the number of spatial positions, the floor division leaves no location
    at all. *)
Theorem num_conv_locations_zero :
  forall (input_shape strides : list Z),
    spatial_dims input_shape <> [] ->
    Forall fits64 (spatial_dims input_shape) ->
    strides <> [] ->
    0 <= prod (spatial_dims input_shape) < prod strides ->
    prod strides < 2 ^ 63 ->
    num_conv_locations input_shape (Some strides) = NpInt 0.
Proof.
  intros input_shape strides Hne _ Hne' H Hlt.
  rewrite num_conv_locations_some; try assumption.
  - rewrite Z.div_small by exact H. reflexivity.
  - unfold fits64. lia.
  - unfold fits64. lia.
  - rewrite Z.div_small by exact H. unfold fits64. lia.
Qed.

Lemma num_conv_locations_zero_witness :
  num_conv_locations [32; 1; 1; 3] (Some [1; 2; 2; 1]) = NpInt 0.
Proof.
  apply num_conv_locations_zero.
  - discriminate.
  - unfold spatial_dims, fits64. cbn [tl removelast].
    repeat constructor; lia.
  - discriminate.
  - unfold prod, spatial_dims. cbn. lia.
  - unfold prod. cbn. lia.
Defined.

(** X27.  Where its arguments leave that range, [num_conv_locations]
    follows the arithmetic of its host library: two spatial dimensions of
    [2^32] have a product that wraps around to zero in 64 bits; and an
    input shape without any spatial dimension gives the double [1.0], the
    empty product. *)
Theorem num_conv_locations_outside_range :
  forall batch channels : Z,
    num_conv_locations [batch; 2 ^ 32; 2 ^ 32; channels] None = NpInt 0 /\
    num_conv_locations [batch; channels] None = NpFloat 1.
Proof. intros batch channels. split; reflexivity. Qed.

End ConvLocationsEdgeFacts.

(** ** More on the depthwise filter adapters *)

Section DepthwiseEntryFacts.

Import Depthwise DepthwiseBlocks.
Local Open Scope nat_scope.

Lemma wf_intro (f : filter4) (h w c m : nat) :
  fshape f = (h, w, c, m) ->
  length (fdata f) = h ->
  (forall y, y < h -> length (nth y (fdata f) []) = w) ->
  (forall y x, y < h -> x < w ->
     length (nth x (nth y (fdata f) []) []) = c) ->
  (forall y x k, y < h -> x < w -> k < c ->
     length (nth k (nth x (nth y (fdata f) []) []) []) = m) ->
  well_formed f.
Proof.
  intros Hs Hh Hw Hc Hm. unfold well_formed. rewrite Hs.
  split; [exact Hh |].
  apply Forall_forall. intros plane Hplane.
  destruct (In_nth _ _ [] Hplane) as [y [Hy <-]]. rewrite Hh in Hy.
  split; [apply Hw; exact Hy |].
  apply Forall_forall. intros chans Hchans.
  destruct (In_nth _ _ [] Hchans) as [x [Hx <-]]. rewrite (Hw y Hy) in Hx.
  split; [apply Hc; assumption |].
  apply Forall_forall. intros row Hrow.
  destruct (In_nth _ _ [] Hrow) as [k [Hk <-]].
  rewrite (Hc y x Hy Hx) in Hk.
  apply Hm; assumption.
Qed.

(** The channels at one position of the backward transform: channel [i] is
    block [i] of the row of channel [i]. *)
Lemma backward_at (gd : data4) (h w c m y x : nat) :
  length gd = h -> length (nth y gd []) = w -> y < h -> x < w ->
  nth x (nth y (concat_axis2 h w (map (diagonal_slice c m gd) (range c)))
              []) []
  = map (fun i => firstn m (skipn (i * m) (nth i (nth x (nth y gd []) []) [])))
        (range c).
Proof.
  intros Hh Hw Hy Hx. unfold concat_axis2.
  rewrite nth_map_range by exact Hy. rewrite nth_map_range by exact Hx.
  rewrite map_map.
  rewrite <- (concat_singletons
                (fun i => firstn m (skipn (i * m)
                                      (nth i (nth x (nth y gd []) []) [])))
                (range c)).
  f_equal. apply map_ext_in. intros i Hi. apply in_range in Hi.
  unfold diagonal_slice.
  rewrite nth_map_lt with (d' := []) by (rewrite Hh; exact Hy).
  rewrite nth_map_lt with (d' := []) by (rewrite Hw; exact Hx).
  f_equal. unfold split_last. rewrite nth_map_range by exact Hi.
  reflexivity.
Qed.

Lemma block_bound (c m i : nat) : i < c -> i * m + m <= c * m.
Proof. intros H. nia. Qed.

Lemma backward_keeps_diagonal :
  forall (g : filter4) (h w c m : nat),
    fshape g = (h, w, c, c * m) -> well_formed g -> 0 < c ->
    exists f : filter4,
      conv2d_filter_to_depthwise_conv2d_filter g = Ok f /\
      fshape f = (h, w, c, m) /\
      well_formed f /\
      (forall y x i k : nat,
          y < h -> x < w -> i < c -> k < m ->
          entry4 f y x i k = entry4 g y x i (i * m + k)).
Proof.
  intros g h w c m Hs Hwf Hc.
  destruct (wf_lengths g h w c (c * m) Hs Hwf) as [Hh [Hw [Hcl Hrow]]].
  exists {| fshape := (h, w, c, m);
            fdata := concat_axis2 h w
                       (map (diagonal_slice c m (fdata g)) (range c)) |}.
  split; [| split; [| split]].
  - unfold conv2d_filter_to_depthwise_conv2d_filter. rewrite Hs.
    destruct (Nat.eqb_spec c 0) as [E | _]; [lia |].
    rewrite (Nat.mul_comm c m), Nat.Div0.mod_mul. cbn [Nat.eqb negb].
    rewrite Nat.div_mul by lia. reflexivity.
  - reflexivity.
  - apply (wf_intro _ h w c m); cbn [fshape fdata].
    + reflexivity.
    + unfold concat_axis2. rewrite length_map. apply length_range.
    + intros y Hy. unfold concat_axis2. rewrite nth_map_range by exact Hy.
      rewrite length_map. apply length_range.
    + intros y x Hy Hx.
      rewrite (backward_at (fdata g) h w c m y x Hh (Hw y Hy) Hy Hx).
      rewrite length_map. apply length_range.
    + intros y x k Hy Hx Hk.
      rewrite (backward_at (fdata g) h w c m y x Hh (Hw y Hy) Hy Hx).
      rewrite nth_map_range by exact Hk.
      rewrite length_firstn, length_skipn, (Hrow y x k Hy Hx Hk).
      pose proof (block_bound c m k Hk). lia.
  - intros y x i k Hy Hx Hi Hk. unfold entry4. cbn [fdata].
    rewrite (backward_at (fdata g) h w c m y x Hh (Hw y Hy) Hy Hx).
    rewrite nth_map_range by exact Hi.
    rewrite nth_firstn.
    destruct (Nat.ltb_spec k m) as [_ | Hge]; [| lia].
    apply nth_skipn.
Qed.

(** X12.  The backward transform keeps exactly the diagonal blocks.  On a
    well-formed filter whose [out_channels] is a multiple [m] of a non-zero
    [in_channels], it returns a well-formed filter of shape
    [[height; width; in_channels; m]] whose entry [(y, x, i, k)] is the
    entry [(y, x, i, i * m + k)] of the argument. *)
Theorem conv2d_to_depthwise_reads_diagonal :
  forall (g : filter4) (h w c m : nat),
    fshape g = (h, w, c, c * m) -> well_formed g -> 0 < c ->
    exists f : filter4,
      conv2d_filter_to_depthwise_conv2d_filter g = Ok f /\
      fshape f = (h, w, c, m) /\
      well_formed f /\
      (forall y x i k : nat,
          y < h -> x < w -> i < c -> k < m ->
          entry4 f y x i k = entry4 g y x i (i * m + k)).
Proof. exact backward_keeps_diagonal. Qed.

Lemma example_full_filter_wf : well_formed example_full_filter.
Proof.
  unfold well_formed, example_full_filter. cbn [fshape fdata].
  split; [reflexivity |].
  repeat (constructor; try split; try reflexivity).
Defined.

Lemma conv2d_to_depthwise_reads_diagonal_witness :
  exists f : filter4,
    conv2d_filter_to_depthwise_conv2d_filter example_full_filter = Ok f /\
    fshape f = (1, 1, 2, 1) /\
    well_formed f /\
    (forall y x i k : nat,
        y < 1 -> x < 1 -> i < 2 -> k < 1 ->
        entry4 f y x i k = entry4 example_full_filter y x i (i * 1 + k)).
Proof.
  apply (conv2d_to_depthwise_reads_diagonal example_full_filter 1 1 2 1).
  - reflexivity.
  - exact example_full_filter_wf.
  - lia.
Defined.

Lemma forward_value (f : filter4) (h w c m : nat) :
  fshape f = (h, w, c, m) -> 0 < c ->
  depthwise_conv2d_filter_to_conv2d_filter f
  = Ok {| fshape := (h, w, c, c * m);
          fdata := concat_axis3 h w c
                     (map (in_channel h w c m (fdata f)) (range c)) |}.
Proof.
  intros Hs Hc. unfold depthwise_conv2d_filter_to_conv2d_filter. rewrite Hs.
  destruct c as [| c']; [lia |]. reflexivity.
Qed.

Lemma backward_value (g : filter4) (h w c m : nat) :
  fshape g = (h, w, c, c * m) -> 0 < c ->
  conv2d_filter_to_depthwise_conv2d_filter g
  = Ok {| fshape := (h, w, c, m);
          fdata := concat_axis2 h w
                     (map (diagonal_slice c m (fdata g)) (range c)) |}.
Proof.
  intros Hs Hc. unfold conv2d_filter_to_depthwise_conv2d_filter. rewrite Hs.
  destruct (Nat.eqb_spec c 0) as [E | _]; [lia |].
  rewrite (Nat.mul_comm c m), Nat.Div0.mod_mul. cbn [Nat.eqb negb].
  rewrite Nat.div_mul by lia. reflexivity.
Qed.

Lemma forward_entries (f : filter4) (h w c m : nat) :
  fshape f = (h, w, c, m) -> well_formed f -> 0 < c ->
  exists g : filter4,
    depthwise_conv2d_filter_to_conv2d_filter f = Ok g /\
    fshape g = (h, w, c, c * m) /\
    well_formed g /\
    (forall y x j i k : nat,
        y < h -> x < w -> j < c -> i < c -> k < m ->
        entry4 g y x j (i * m + k)
        = if Nat.eqb j i then entry4 f y x i k else Fin 0%R).
Proof.
  intros Hs Hwf Hc.
  exists {| fshape := (h, w, c, c * m);
            fdata := concat_axis3 h w c
                       (map (in_channel h w c m (fdata f)) (range c)) |}.
  split; [| split; [| split]].
  - unfold depthwise_conv2d_filter_to_conv2d_filter. rewrite Hs.
    destruct c as [| c']; [lia |]. reflexivity.
  - reflexivity.
  - apply (wf_intro _ h w c (c * m)); cbn [fshape fdata].
    + reflexivity.
    + unfold concat_axis3. rewrite length_map. apply length_range.
    + intros y Hy. unfold concat_axis3. rewrite nth_map_range by exact Hy.
      rewrite length_map. apply length_range.
    + intros y x Hy Hx. unfold concat_axis3.
      rewrite nth_map_range by exact Hy. rewrite nth_map_range by exact Hx.
      rewrite length_map. apply length_range.
    + intros y x k Hy Hx Hk.
      rewrite (forward_row f h w c m y x k Hs Hwf Hy Hx Hk).
      rewrite (length_concat_uniform m)
        by (apply (forward_row_uniform f h w c m y x k Hs Hwf Hy Hx Hk)).
      rewrite length_map, length_range. reflexivity.
  - intros y x j i k Hy Hx Hj Hi Hk. unfold entry4. cbn [fdata].
    rewrite (forward_row f h w c m y x j Hs Hwf Hy Hx Hj).
    rewrite (nth_concat_uniform m)
      by (try exact Hk;
          apply (forward_row_uniform f h w c m y x j Hs Hwf Hy Hx Hj)).
    rewrite nth_map_range by exact Hi.
    destruct (Nat.eqb_spec j i) as [-> | _]; [reflexivity |].
    apply nth_repeat_lt. exact Hk.
Qed.

(** X13.  The forward transform needs an input channel: without one it
    raises; on a well-formed filter with at least one it returns a
    well-formed full filter whose diagonal channel blocks are the rows of
    the depthwise filter and whose other blocks are zero. *)
Theorem depthwise_to_conv2d_entries :
  forall (f : filter4) (h w c m : nat),
    fshape f = (h, w, c, m) ->
    (c = 0 -> raises (depthwise_conv2d_filter_to_conv2d_filter f)) /\
    (well_formed f -> 0 < c ->
     exists g : filter4,
       depthwise_conv2d_filter_to_conv2d_filter f = Ok g /\
       fshape g = (h, w, c, c * m) /\
       well_formed g /\
       (forall y x j i k : nat,
           y < h -> x < w -> j < c -> i < c -> k < m ->
           entry4 g y x j (i * m + k)
           = if Nat.eqb j i then entry4 f y x i k else Fin 0%R)).
Proof.
  intros f h w c m Hs. split.
  - intros ->. unfold depthwise_conv2d_filter_to_conv2d_filter.
    rewrite Hs. exists ValueError. reflexivity.
  - intros Hwf Hc. apply forward_entries; assumption.
Qed.

Lemma example_filter_wf : well_formed example_filter.
Proof.
  unfold well_formed, example_filter. cbn [fshape fdata].
  split; [reflexivity |].
  repeat (constructor; try split; try reflexivity).
Defined.

Lemma depthwise_to_conv2d_entries_witness :
  exists g : filter4,
    depthwise_conv2d_filter_to_conv2d_filter example_filter = Ok g /\
    fshape g = (1, 1, 2, 2 * 1) /\
    well_formed g /\
    (forall y x j i k : nat,
        y < 1 -> x < 1 -> j < 2 -> i < 2 -> k < 1 ->
        entry4 g y x j (i * 1 + k)
        = if Nat.eqb j i then entry4 example_filter y x i k else Fin 0%R).
Proof.
  apply (proj2 (depthwise_to_conv2d_entries example_filter 1 1 2 1
                  eq_refl)).
  - exact example_filter_wf.
  - lia.
Defined.

(** X14.  Going backward and then forward is a projection: on a well-formed full
    filter it keeps the diagonal channel blocks and replaces every other
    block by zeros. *)
Theorem conv2d_depthwise_conv2d_projects :
  forall (g : filter4) (h w c m : nat),
    fshape g = (h, w, c, c * m) -> well_formed g -> 0 < c ->
    exists f g' : filter4,
      conv2d_filter_to_depthwise_conv2d_filter g = Ok f /\
      depthwise_conv2d_filter_to_conv2d_filter f = Ok g' /\
      fshape g' = fshape g /\
      (forall y x j i k : nat,
          y < h -> x < w -> j < c -> i < c -> k < m ->
          entry4 g' y x j (i * m + k)
          = if Nat.eqb j i then entry4 g y x i (i * m + k) else Fin 0%R).
Proof.
  intros g h w c m Hs Hwf Hc.
  destruct (backward_keeps_diagonal g h w c m Hs Hwf Hc)
    as [f [Hb [Hfs [Hfwf Hfe]]]].
  destruct (forward_entries f h w c m Hfs Hfwf Hc)
    as [g' [Hf [Hgs [_ Hge]]]].
  exists f, g'. split; [exact Hb | split; [exact Hf | split]].
  - rewrite Hgs, Hs. reflexivity.
  - intros y x j i k Hy Hx Hj Hi Hk.
    rewrite (Hge y x j i k Hy Hx Hj Hi Hk).
    destruct (Nat.eqb j i); [apply Hfe; assumption | reflexivity].
Qed.

Lemma conv2d_depthwise_conv2d_projects_witness :
  exists f g' : filter4,
    conv2d_filter_to_depthwise_conv2d_filter example_full_filter = Ok f /\
    depthwise_conv2d_filter_to_conv2d_filter f = Ok g' /\
    fshape g' = fshape example_full_filter /\
    (forall y x j i k : nat,
        y < 1 -> x < 1 -> j < 2 -> i < 2 -> k < 1 ->
        entry4 g' y x j (i * 1 + k)
        = if Nat.eqb j i then entry4 example_full_filter y x i (i * 1 + k)
          else Fin 0%R).
Proof.
  apply (conv2d_depthwise_conv2d_projects example_full_filter 1 1 2 1).
  - reflexivity.
  - exact example_full_filter_wf.
  - lia.
Defined.

(** X15.  [multiply_matpower] of the depthwise blocks.  If the parent class's
    [multiply_matpower] maps well-formed full filters to well-formed full
    filters of the same shape, the result has the shape of the vector and
    holds the diagonal channel blocks of what the parent returned; and if
    the parent's [multiply_matpower] returns its argument, so does the
    depthwise block's. *)
Theorem depthwise_multiply_matpower_shape :
  forall (parent : filter4 -> Q -> result filter4) (vector : filter4)
         (exp : Q) (h w c m : nat),
    fshape vector = (h, w, c, m) -> well_formed vector -> 0 < c ->
    ((forall g : filter4,
         fshape g = (h, w, c, c * m) -> well_formed g ->
         exists r : filter4,
           parent g exp = Ok r /\ fshape r = (h, w, c, c * m) /\
           well_formed r) ->
     exists g r out : filter4,
       depthwise_conv2d_filter_to_conv2d_filter vector = Ok g /\
       parent g exp = Ok r /\
       multiply_matpower parent vector exp = Ok out /\
       fshape out = fshape vector /\
       well_formed out /\
       (forall y x i k : nat,
           y < h -> x < w -> i < c -> k < m ->
           entry4 out y x i k = entry4 r y x i (i * m + k))) /\
    ((forall g : filter4, parent g exp = Ok g) ->
     multiply_matpower parent vector exp = Ok vector).
Proof.
  intros parent vector exp h w c m Hs Hwf Hc. split.
  - intros Hparent.
    destruct (forward_entries vector h w c m Hs Hwf Hc)
      as [g [Hf [Hgs [Hgwf _]]]].
    destruct (Hparent g Hgs Hgwf) as [r [Hp [Hrs Hrwf]]].
    destruct (backward_keeps_diagonal r h w c m Hrs Hrwf Hc)
      as [out [Hb [Hos [Howf Hoe]]]].
    exists g, r, out. unfold multiply_matpower.
    rewrite Hf. cbn [bind]. rewrite Hp. cbn [bind].
    repeat split; try assumption.
    rewrite Hos, Hs. reflexivity.
  - intros Hid. unfold multiply_matpower.
    rewrite (forward_value vector h w c m Hs Hc). cbn [bind].
    rewrite Hid. cbn [bind].
    rewrite (backward_value
               {| fshape := (h, w, c, c * m);
                  fdata := concat_axis3 h w c
                             (map (in_channel h w c m (fdata vector))
                                  (range c)) |}
               h w c m eq_refl Hc).
    cbn [fdata].
    rewrite (backward_forward_data vector h w c m Hs Hwf).
    destruct vector as [fs fd]. cbn [fshape fdata] in *. rewrite Hs.
    reflexivity.
Qed.

Lemma depthwise_multiply_matpower_shape_witness :
  multiply_matpower (fun g _ => Ok g) example_filter (-1 # 1)
  = Ok example_filter.
Proof.
  apply (proj2 (depthwise_multiply_matpower_shape (fun g _ => Ok g)
                  example_filter (-1 # 1) 1 1 2 1 eq_refl example_filter_wf
                  (Nat.lt_0_succ 1))).
  intros g. reflexivity.
Defined.

End DepthwiseEntryFacts.

(** ** Constructors of the convolutional blocks *)

Section ConvBlocksFacts.

Import ConvBlocks.
Local Open Scope nat_scope.

Lemma length_4 {A : Type} (l : list A) :
  length l = 4 -> exists a b c d, l = [a; b; c; d].
Proof.
  destruct l as [| a [| b [| c [| d [| e l]]]]]; simpl; intros H;
    try discriminate. exists a, b, c, d. reflexivity.
Qed.

Lemma length_2 {A : Type} (l : list A) :
  length l = 2 -> exists a b, l = [a; b].
Proof.
  destruct l as [| a [| b [| c l]]]; simpl; intros H; try discriminate.
  exists a, b. reflexivity.
Qed.

(** X16.  The constructor of [ConvDiagonalFB] succeeds exactly when [strides]
    has four entries, [dilations] is [None] or has four entries, the data
    format is channels-last and the filter has rank four; every failure is
    a [ValueError], except an empty parameter tuple, which is an
    [IndexError]. *)
Theorem conv_diagonal_init_validates :
  forall (channel_last : option string -> bool) (p : params)
         (strides : list Z) (padding : string)
         (data_format : option string) (dilations : option (list Z)),
    ((exists b, conv_diagonal_init channel_last p strides padding data_format
                  dilations = Ok b) <->
     (length strides = 4 /\
      (dilations = None \/ exists d, dilations = Some d /\ length d = 4) /\
      channel_last data_format = true /\
      exists shp, fltr_shape p = Ok shp /\ length shp = 4)) /\
    (forall e, conv_diagonal_init channel_last p strides padding data_format
                 dilations = Raise e ->
               e = ValueError \/ (e = IndexError /\ p = ParamSeq [])).
Proof.
  intros channel_last p strides padding data_format dilations.
  unfold conv_diagonal_init. split; [split |].
  - intros [b H].
    destruct (Nat.eqb_spec (length strides) 4) as [Hs | _];
      cbn [negb] in H; [| discriminate H].
    destruct dilations as [d |].
    + destruct (Nat.eqb_spec (length d) 4) as [Hd | _];
        cbn [negb] in H; [| discriminate H].
      destruct (channel_last data_format); cbn [negb] in H;
        [| discriminate H].
      destruct (fltr_shape p) as [shp | e]; cbn [bind] in H;
        [| discriminate H].
      destruct (Nat.eqb_spec (length shp) 4) as [Hf | _];
        cbn [negb] in H; [| discriminate H].
      repeat split; try assumption; eauto.
    + cbn [length Nat.eqb negb] in H.
      destruct (channel_last data_format); cbn [negb] in H;
        [| discriminate H].
      destruct (fltr_shape p) as [shp | e]; cbn [bind] in H;
        [| discriminate H].
      destruct (Nat.eqb_spec (length shp) 4) as [Hf | _];
        cbn [negb] in H; [| discriminate H].
      repeat split; try assumption; eauto.
  - intros [Hs [Hd [Hc [shp [Hp Hf]]]]].
    rewrite Hs, Hc, Hp. cbn [Nat.eqb negb bind]. rewrite Hf.
    destruct Hd as [-> | [d [-> Hd]]].
    + cbn [length Nat.eqb negb]. eexists. reflexivity.
    + rewrite Hd. cbn [Nat.eqb negb]. eexists. reflexivity.
  - intros e H.
    destruct (negb (length strides =? 4));
      [injection H as <-; left; reflexivity |].
    destruct (negb (length match dilations with
                           | Some d => d
                           | None => [1%Z; 1%Z; 1%Z; 1%Z]
                           end =? 4));
      [injection H as <-; left; reflexivity |].
    destruct (negb (channel_last data_format));
      [injection H as <-; left; reflexivity |].
    destruct p as [shp | [| shp l]]; cbn [fltr_shape bind] in H.
    + destruct (negb (length shp =? 4));
        [injection H as <-; left; reflexivity | discriminate H].
    + injection H as <-. right. split; reflexivity.
    + destruct (negb (length shp =? 4));
        [injection H as <-; left; reflexivity | discriminate H].
Qed.

Lemma conv_diagonal_init_validates_witness :
  exists b,
    conv_diagonal_init example_channel_last (ParamTensor [3; 3; 8; 16])
      [1; 2; 2; 1]%Z "SAME" None None = Ok b.
Proof.
  apply (proj2 (proj1 (conv_diagonal_init_validates example_channel_last
                         (ParamTensor [3; 3; 8; 16]) [1; 2; 2; 1]%Z "SAME"
                         None None))).
  split; [reflexivity |]. split; [left; reflexivity |].
  split; [reflexivity |]. exists [3; 3; 8; 16]. split; reflexivity.
Defined.

Lemma depthwise_init_value (channel_last : option string -> bool)
    (h w cin mult : nat) (strides : list Z) (padding : string)
    (rate : option (list Z)) (data_format : option string) :
  length strides = 4 -> channel_last data_format = true ->
  depthwise_conv_diagonal_init channel_last (ParamTensor [h; w; cin; mult])
    strides padding rate data_format
  = rate' <- expand_rate rate ;;
    Ok {| ConvDiagonalFB._strides := strides;
          ConvDiagonalFB._padding := padding;
          ConvDiagonalFB._data_format := data_format;
          ConvDiagonalFB._dilations := match rate' with
                                       | None => [1; 1; 1; 1]%Z
                                       | Some d => d
                                       end;
          ConvDiagonalFB._has_bias := false;
          ConvDiagonalFB._filter_shape := [h; w; cin; cin * mult] |}.
Proof.
  intros Hs Hc. unfold depthwise_conv_diagonal_init, conv_diagonal_init.
  rewrite Hs, Hc. cbn [length Nat.eqb negb].
  destruct rate as [r |]; cbn [expand_rate].
  - destruct (Nat.eqb_spec (length r) 2) as [Hr | _]; cbn [negb bind];
      [| reflexivity].
    cbn [length Nat.eqb negb fltr_shape bind depthwise_filter_shape
         is_param_seq ConvDiagonalFB._strides ConvDiagonalFB._padding
         ConvDiagonalFB._data_format ConvDiagonalFB._dilations
         ConvDiagonalFB._has_bias].
    reflexivity.
  - cbn [bind length Nat.eqb negb fltr_shape depthwise_filter_shape
         is_param_seq ConvDiagonalFB._strides ConvDiagonalFB._padding
         ConvDiagonalFB._data_format ConvDiagonalFB._dilations
         ConvDiagonalFB._has_bias].
    reflexivity.
Qed.

Lemma depthwise_init_inversion (channel_last : option string -> bool)
    (p : params) (strides : list Z) (padding : string)
    (rate : option (list Z)) (data_format : option string)
    (b : ConvDiagonalFB.block) :
  depthwise_conv_diagonal_init channel_last p strides padding rate
    data_format = Ok b ->
  exists h w cin mult,
    p = ParamTensor [h; w; cin; mult] /\
    length strides = 4 /\
    channel_last data_format = true /\
    ((rate = None /\ ConvDiagonalFB._dilations b = [1; 1; 1; 1]%Z) \/
     (exists r0 r1, rate = Some [r0; r1] /\
                    ConvDiagonalFB._dilations b = [1; r0; r1; 1]%Z)) /\
    ConvDiagonalFB._filter_shape b = [h; w; cin; cin * mult] /\
    ConvDiagonalFB._has_bias b = false /\
    ConvDiagonalFB._strides b = strides.
Proof.
  intros H.
  assert (Hpre : exists h w cin mult,
             p = ParamTensor [h; w; cin; mult] /\ length strides = 4 /\
             channel_last data_format = true).
  { unfold depthwise_conv_diagonal_init in H.
    destruct p as [shp | l]; [| discriminate H].
    destruct (Nat.eqb_spec (length shp) 4) as [Hshp | _];
      cbn [negb] in H; [| discriminate H].
    destruct (Nat.eqb_spec (length strides) 4) as [Hs | _];
      cbn [negb] in H; [| discriminate H].
    destruct (expand_rate rate) as [rate' | e]; cbn [bind] in H;
      [| discriminate H].
    destruct (channel_last data_format); cbn [negb] in H;
      [| discriminate H].
    destruct (length_4 shp Hshp) as [h [w [cin [mult ->]]]].
    exists h, w, cin, mult. repeat split; assumption. }
  destruct Hpre as [h [w [cin [mult [-> [Hs Hc]]]]]].
  rewrite (depthwise_init_value channel_last h w cin mult strides padding
             rate data_format Hs Hc) in H.
  exists h, w, cin, mult.
  split; [reflexivity | split; [exact Hs | split; [exact Hc |]]].
  destruct rate as [r |]; cbn [expand_rate] in H.
  + destruct (Nat.eqb_spec (length r) 2) as [Hr | _];
      cbn [negb bind] in H; [| discriminate H].
    destruct (length_2 r Hr) as [r0 [r1 ->]].
    injection H as <-. cbn [ConvDiagonalFB._dilations
      ConvDiagonalFB._filter_shape ConvDiagonalFB._has_bias
      ConvDiagonalFB._strides nth].
    repeat split. right. exists r0, r1. split; reflexivity.
  + cbn [bind] in H. injection H as <-.
    cbn [ConvDiagonalFB._dilations ConvDiagonalFB._filter_shape
      ConvDiagonalFB._has_bias ConvDiagonalFB._strides].
    repeat split. left. split; reflexivity.
Qed.

(** X17.  The constructor of [DepthwiseConvDiagonalFB] succeeds exactly when the
    parameter is a single rank-4 tensor, [strides] has four entries, [rate]
    is [None] or has two entries and the data format is channels-last; the
    checks of the parent constructor then never fail.  The block it builds
    has no bias, dilations [[1; 1; 1; 1]] or [[1; rate[0]; rate[1]; 1]],
    and the filter shape
    [[height; width; in_channels; in_channels * channel_multiplier]]. *)
Theorem depthwise_conv_diagonal_init_validates :
  forall (channel_last : option string -> bool) (p : params)
         (strides : list Z) (padding : string) (rate : option (list Z))
         (data_format : option string),
    (forall b,
        depthwise_conv_diagonal_init channel_last p strides padding rate
          data_format = Ok b ->
        exists h w cin mult,
          p = ParamTensor [h; w; cin; mult] /\
          length strides = 4 /\
          channel_last data_format = true /\
          ((rate = None /\ ConvDiagonalFB._dilations b = [1; 1; 1; 1]%Z) \/
           (exists r0 r1, rate = Some [r0; r1] /\
                          ConvDiagonalFB._dilations b = [1; r0; r1; 1]%Z)) /\
          ConvDiagonalFB._filter_shape b = [h; w; cin; cin * mult] /\
          ConvDiagonalFB._has_bias b = false /\
          ConvDiagonalFB._strides b = strides) /\
    (forall h w cin mult,
        p = ParamTensor [h; w; cin; mult] ->
        length strides = 4 ->
        channel_last data_format = true ->
        (rate = None \/ exists r0 r1, rate = Some [r0; r1]) ->
        exists b,
          depthwise_conv_diagonal_init channel_last p strides padding rate
            data_format = Ok b).
Proof.
  intros channel_last p strides padding rate data_format. split.
  - intros b H. apply (depthwise_init_inversion channel_last p strides
                         padding rate data_format b H).
  - intros h w cin mult -> Hs Hc Hrate.
    rewrite (depthwise_init_value channel_last h w cin mult strides padding
               rate data_format Hs Hc).
    destruct Hrate as [-> | [r0 [r1 ->]]]; cbn [expand_rate length Nat.eqb
      negb bind]; eexists; reflexivity.
Qed.

Lemma depthwise_conv_diagonal_init_validates_witness :
  exists b,
    depthwise_conv_diagonal_init example_channel_last
      (ParamTensor [3; 3; 8; 2]) [1; 2; 2; 1]%Z "SAME" (Some [2; 2]%Z)
      (Some "NHWC"%string) = Ok b.
Proof.
  apply (proj2 (depthwise_conv_diagonal_init_validates example_channel_last
                  (ParamTensor [3; 3; 8; 2]) [1; 2; 2; 1]%Z "SAME"
                  (Some [2; 2]%Z) (Some "NHWC"%string)) 3 3 8 2).
  - reflexivity.
  - reflexivity.
  - reflexivity.
  - right. exists 2%Z, 2%Z. reflexivity.
Defined.

(** X18.  The filter shape that the depthwise constructor stores is the shape of
    the full filter that [depthwise_conv2d_filter_to_conv2d_filter] builds
    from the parameter. *)
Theorem depthwise_filter_shape_consistent :
  forall (channel_last : option string -> bool) (f g : Depthwise.filter4)
         (strides : list Z) (padding : string) (rate : option (list Z))
         (data_format : option string) (b : ConvDiagonalFB.block),
    depthwise_conv_diagonal_init channel_last
      (ParamTensor (shape_list (Depthwise.fshape f))) strides padding rate
      data_format = Ok b ->
    Depthwise.depthwise_conv2d_filter_to_conv2d_filter f = Ok g ->
    ConvDiagonalFB._filter_shape b = shape_list (Depthwise.fshape g).
Proof.
  intros channel_last f g strides padding rate data_format b Hinit Hfwd.
  destruct (Depthwise.fshape f) as [[[h' w'] c'] m'] eqn:Hs.
  cbn [shape_list] in Hinit.
  destruct (depthwise_init_inversion channel_last _ strides padding rate
              data_format b Hinit)
    as [h [w [cin [mult [Hp [_ [_ [_ [Hfs _]]]]]]]]].
  injection Hp as <- <- <- <-. rewrite Hfs.
  unfold Depthwise.depthwise_conv2d_filter_to_conv2d_filter in Hfwd.
  rewrite Hs in Hfwd.
  destruct c' as [| c'']; [discriminate Hfwd |].
  unfold range in Hfwd. cbn [seq map] in Hfwd.
  injection Hfwd as <-. reflexivity.
Qed.

Lemma depthwise_filter_shape_consistent_witness :
  ConvDiagonalFB._filter_shape
    {| ConvDiagonalFB._strides := [1; 1; 1; 1]%Z;
       ConvDiagonalFB._padding := "SAME";
       ConvDiagonalFB._data_format := None;
       ConvDiagonalFB._dilations := [1; 1; 1; 1]%Z;
       ConvDiagonalFB._has_bias := false;
       ConvDiagonalFB._filter_shape := [1; 1; 2; 2] |}
  = shape_list
      (Depthwise.fshape
         {| Depthwise.fshape := (1, 1, 2, 2);
            Depthwise.fdata :=
              Depthwise.concat_axis3 1 1 2
                (map (Depthwise.in_channel 1 1 2 1
                        (Depthwise.fdata Depthwise.example_filter))
                     (range 2)) |}).
Proof.
  apply (depthwise_filter_shape_consistent example_channel_last
           Depthwise.example_filter _ [1; 1; 1; 1]%Z "SAME" None None).
  - reflexivity.
  - reflexivity.
Defined.

End ConvBlocksFacts.

(** ** More on the temporal series block *)

Section SeriesMoreFacts.

Import Series SeriesAPI.

Lemma is_inverse_minus_one : is_inverse (-1 # 1) = true.
Proof. reflexivity. Qed.

Lemma is_inverse_one : is_inverse (1 # 1) = false.
Proof. reflexivity. Qed.

(** X19.  [multiply] is never supported on a series block: it always
    raises [NotImplementedError].  [register_inverse] succeeds exactly when
    the block's option is one of the two approximations, and raises
    [ValueError] otherwise. *)
Theorem series_multiply_unsupported :
  forall (b : block) (vec : matrix),
    multiply b vec = Raise NotImplementedError /\
    ((exists b', register_inverse b = Ok b') <->
     (_option b = option1 \/ _option b = option2)) /\
    (register_inverse b = Raise ValueError <->
     (_option b <> option1 /\ _option b <> option2)).
Proof.
  intros b vec.
  unfold multiply, register_inverse, multiply_matpower, register_matpower.
  rewrite is_inverse_one, is_inverse_minus_one. cbn [negb].
  split; [reflexivity |].
  destruct (Z.eqb_spec (_option b) option1) as [E1 | N1].
  - split; split.
    + intros _. left. exact E1.
    + intros _. eexists. reflexivity.
    + intros H. discriminate H.
    + intros [N _]. contradiction.
  - destruct (Z.eqb_spec (_option b) option2) as [E2 | N2].
    + split; split.
      * intros _. right. exact E2.
      * intros _. eexists. reflexivity.
      * intros H. discriminate H.
      * intros [_ N]. contradiction.
    + split; split.
      * intros [b' H]. discriminate H.
      * intros [E | E]; contradiction.
      * intros _. split; assumption.
      * intros _. reflexivity.
Qed.

Local Open Scope nat_scope.

Lemma column_length (j : nat) (m : matrix) : length (column j m) = length m.
Proof. unfold column. apply length_map. Qed.

Lemma transpose_involutive (r c : nat) (m : matrix) :
  0 < r -> 0 < c -> rectangular r c m -> transpose (transpose m) = m.
Proof.
  intros Hr Hc [Hlen Hrows].
  assert (Hncols : ncols m = c).
  { destruct m as [| row m']; [simpl in Hlen; lia |].
    inversion Hrows; subst. reflexivity. }
  assert (Hrow : forall i, i < r -> length (nth i m []) = c).
  { intros i Hi. rewrite Forall_forall in Hrows. apply Hrows.
    apply nth_In. lia. }
  assert (Ht : transpose m = map (fun j => column j m) (range c)).
  { unfold transpose. rewrite Hncols. reflexivity. }
  assert (Hncols' : ncols (transpose m) = r).
  { rewrite Ht. destruct c as [| c']; [lia |].
    unfold range. cbn [seq map ncols]. rewrite column_length. exact Hlen. }
  unfold transpose at 1. rewrite Hncols'.
  transitivity (map (fun i => nth i m []) (range r));
    [| rewrite <- Hlen; apply map_nth_range].
  apply map_ext_in. intros i Hi. apply in_range in Hi.
  rewrite Ht. unfold column at 1. rewrite map_map.
  transitivity (map (fun j => nth j (nth i m []) (Fin 0%R)) (range c));
    [| rewrite <- (Hrow i Hi); apply map_nth_range].
  apply map_ext_in. intros j Hj. unfold column.
  rewrite nth_map_lt with (d' := [])
    by (apply Nat.lt_le_trans with r;
        [exact Hi | rewrite <- Hlen; apply Nat.le_refl]).
  reflexivity.
Qed.

(** X20.  With an option that is neither [option1] nor [option2] the two methods
    disagree: [register_inverse] raises [ValueError], while
    [multiply_inverse] raises nothing and hands a rectangular vector back
    unchanged. *)
Theorem series_unknown_option :
  forall (b : block) (vec : matrix) (r c : nat),
    _option b <> option1 -> _option b <> option2 ->
    0 < r -> 0 < c -> rectangular r c vec ->
    register_inverse b = Raise ValueError /\
    multiply_inverse b vec = Ok vec.
Proof.
  intros b vec r c N1 N2 Hr Hc Hrect.
  unfold multiply_inverse, register_inverse, multiply_matpower,
    register_matpower.
  rewrite is_inverse_minus_one. cbn [negb].
  apply Z.eqb_neq in N1. apply Z.eqb_neq in N2. rewrite N1, N2.
  split; [reflexivity |].
  rewrite (transpose_involutive r c vec Hr Hc Hrect). reflexivity.
Qed.

Lemma series_unknown_option_witness :
  register_inverse unknown_option_block = Raise ValueError /\
  multiply_inverse unknown_option_block [[Fin 1%R; Fin 2%R]]
  = Ok [[Fin 1%R; Fin 2%R]].
Proof.
  apply (series_unknown_option unknown_option_block [[Fin 1%R; Fin 2%R]] 1 2).
  - discriminate.
  - discriminate.
  - lia.
  - lia.
  - split; [reflexivity |]. constructor; [reflexivity | constructor].
Defined.

Local Open Scope R_scope.

Lemma gamma_fin (T : nat) (x : R) :
  gamma T (Fin x)
  = fdiv (Fin ((1 - x) ^ 2))
         (Fin (INR T * (1 - x ^ 2) - 2 * x * (1 - x ^ T))).
Proof.
  unfold gamma, fsub, of_nat.
  cbn [fneg fadd]. rewrite !fpow_fin. cbn [fneg fadd fmul].
  f_equal; f_equal; ring.
Qed.

(** X21.  The kernel of Option 1 has no guard: where the product of the two
    [psi] entries is exactly one it is zero divided by zero, which is not
    a number, whatever the number of time-steps. *)
Theorem gamma_at_one :
  forall T : nat, gamma T (Fin 1) = NaN.
Proof.
  intros T. rewrite gamma_fin.
  assert (Hnum : (1 - 1) ^ 2 = 0) by ring.
  assert (Hden : INR T * (1 - 1 ^ 2) - 2 * 1 * (1 - 1 ^ T) = 0)
    by (rewrite !pow1; ring).
  rewrite Hnum, Hden, fdiv_fin_zero, sgn_of_zero. reflexivity.
Qed.

Lemma series_multiply_unsupported_witness :
  exists b', register_inverse example_block = Ok b'.
Proof.
  apply (proj2 (proj1 (proj2 (series_multiply_unsupported example_block
                                [[Fin 1]])))).
  right. reflexivity.
Defined.

End SeriesMoreFacts.

(** ** More on tower and use normalisation *)

Section TowersMoreFacts.

Import Towers MultiUseBlocks.
Import InputOutputMultiTowerMultiUse.
Local Open Scope nat_scope.
Local Open Scope string_scope.

Lemma process_inputs_sequence (S : string) (nu nu' : option nat)
    (inputs : list pyobj) (x : pyobj) :
  process_inputs S nu inputs = Ok (x, nu') -> is_sequence x = true.
Proof.
  unfold process_inputs. intros H.
  destruct (first inputs) as [i0 | e]; cbn [bind] in H; [| discriminate H].
  destruct (is_sequence i0).
  - destruct (set_num_uses nu (length (items_of i0))) as [k | e];
      cbn [bind] in H; [| discriminate H].
    destruct (all_len_eq (length (items_of i0)) inputs) as [same | e];
      cbn [bind] in H; [| discriminate H].
    destruct (negb same); [discriminate H |].
    destruct (S =? "concat").
    { destruct (partitioned _) as [merged | e]; cbn [bind] in H;
        [injection H as <- _; reflexivity | discriminate H]. }
    destruct (S =? "separate"); [| discriminate H].
    destruct (map_result _ inputs) as [inputs' | e]; cbn [bind] in H;
      [injection H as <- _; reflexivity | discriminate H].
  - injection H as <- _. reflexivity.
Qed.

(** X24.  [ConvKFCBasicMultiIndepFB.instantiate_factors] never gets past its
    second statement: whatever is registered and whatever the strategy,
    the inputs that [_process_data] returns are a tuple or a list, which
    has no [shape], so that the call raises [AttributeError] whenever
    [_process_data] itself does not raise. *)
Theorem conv_multi_indep_never_instantiates :
  forall (shape_of : pyobj -> list Z) (S : string) (nu : option nat)
         (inputs : list pyobj) (grads_list : list (list pyobj))
         (strides : option (list Z)),
    (forall z : ConvLocations.npnum,
        instantiate_num_locations shape_of S nu inputs grads_list strides
        <> Returns z) /\
    (forall r,
        _process_data S nu inputs grads_list = Ok r ->
        instantiate_num_locations shape_of S nu inputs grads_list strides
        = RaisesAttributeError).
Proof.
  intros shape_of S nu inputs grads_list strides.
  assert (Hok : forall r,
             _process_data S nu inputs grads_list = Ok r ->
             instantiate_num_locations shape_of S nu inputs grads_list strides
             = RaisesAttributeError).
  { intros [[x g] k] H. unfold instantiate_num_locations. rewrite H.
    unfold _process_data in H.
    destruct (process_inputs S nu inputs) as [[x' nu1] | e] eqn:Hin;
      cbn [bind] in H; [| discriminate H].
    destruct (process_grads S nu1 grads_list) as [[g' nu2] | e];
      cbn [bind] in H; [| discriminate H].
    destruct nu2; [| discriminate H]. injection H as <- _ _.
    pose proof (process_inputs_sequence S nu nu1 inputs x' Hin) as Hseq.
    destruct x'; try discriminate Hseq; reflexivity. }
  split; [| exact Hok].
  intros z H.
  destruct (_process_data S nu inputs grads_list) as [r | e] eqn:E.
  - rewrite (Hok r eq_refl) in H. discriminate H.
  - unfold instantiate_num_locations in H. rewrite E in H. discriminate H.
Qed.

Lemma conv_multi_indep_never_instantiates_witness :
  instantiate_num_locations (fun _ => [8; 5; 5; 3]%Z) "concat" None
    [PyList [Tensor 0; Tensor 1]] [[PyList [Tensor 2; Tensor 3]]] None
  = RaisesAttributeError.
Proof.
  apply (proj2 (conv_multi_indep_never_instantiates (fun _ => [8; 5; 5; 3]%Z)
                  "concat" None [PyList [Tensor 0; Tensor 1]]
                  [[PyList [Tensor 2; Tensor 3]]] None)
           (PyTuple [PartitionedTensor [Tensor 0; Tensor 1]],
            PyTuple [PyTuple [PartitionedTensor [Tensor 2; Tensor 3]]],
            Some 2)).
  reflexivity.
Defined.

Lemma all_len_eq_mismatch (n : nat) (l : list pyobj) :
  Forall (fun o => is_sequence o = true) l ->
  Exists (fun o => length (items_of o) <> n) l ->
  all_len_eq n l = Ok false.
Proof.
  intros Hseq. induction Hseq as [| o l Ho _ IH]; intros Hex.
  - inversion Hex.
  - cbn [all_len_eq].
    assert (Hlen : py_len o = Ok (length (items_of o))).
    { destruct o; try discriminate Ho; reflexivity. }
    rewrite Hlen. cbn [bind].
    destruct (Nat.eqb_spec (length (items_of o)) n) as [E | N];
      [| reflexivity].
    apply IH. inversion Hex; subst; [contradiction | assumption].
Qed.

(** X25.  The use-count errors of the multi-use [_process_data], each a
    [ValueError] under every strategy: the count can be neither inferred
    nor was supplied; the supplied count differs from the number of uses of
    the first tower; a later tower has another number of uses than the
    first; the gradients have another number of uses than the inputs. *)
Theorem multi_use_count_errors :
  forall (S : string) (i0 : pyobj) (inputs : list pyobj)
         (g00 : pyobj) (g0 : list pyobj) (grads : list (list pyobj)),
    (is_sequence i0 = false -> is_sequence g00 = false ->
     _process_data S None (i0 :: inputs) ((g00 :: g0) :: grads)
     = Raise ValueError) /\
    (forall k, is_sequence i0 = true -> k <> length (items_of i0) ->
     _process_data S (Some k) (i0 :: inputs) ((g00 :: g0) :: grads)
     = Raise ValueError) /\
    (is_sequence i0 = true ->
     Forall (fun o => is_sequence o = true) inputs ->
     Exists (fun o => length (items_of o) <> length (items_of i0)) inputs ->
     _process_data S None (i0 :: inputs) ((g00 :: g0) :: grads)
     = Raise ValueError) /\
    (forall nu x n,
        process_inputs S nu (i0 :: inputs) = Ok (x, Some n) ->
        is_sequence g00 = true -> length (items_of g00) <> n ->
        _process_data S nu (i0 :: inputs) ((g00 :: g0) :: grads)
        = Raise ValueError).
Proof.
  intros S i0 inputs g00 g0 grads. split; [| split; [| split]].
  - intros Hi Hg. unfold _process_data, process_inputs, process_grads.
    cbn [first bind]. rewrite Hi, Hg. reflexivity.
  - intros k Hi Hk. unfold _process_data, process_inputs.
    cbn [first bind]. rewrite Hi. unfold set_num_uses.
    destruct (Nat.eqb_spec k (length (items_of i0))) as [E | _];
      [contradiction | reflexivity].
  - intros Hi Hseq Hex. unfold _process_data, process_inputs.
    cbn [first bind]. rewrite Hi. cbn [set_num_uses bind].
    rewrite (all_len_eq_mismatch (length (items_of i0)) (i0 :: inputs)).
    + reflexivity.
    + constructor; assumption.
    + apply Exists_cons_tl. exact Hex.
  - intros nu x n Hin Hg Hne. unfold _process_data. rewrite Hin.
    cbn [bind]. unfold process_grads. cbn [first bind]. rewrite Hg.
    unfold set_num_uses.
    destruct (Nat.eqb_spec n (length (items_of g00))) as [E | _];
      [exfalso; apply Hne; symmetry; exact E | reflexivity].
Qed.

Lemma multi_use_count_errors_witness :
  _process_data "concat" None [Tensor 0] [[Tensor 1]] = Raise ValueError.
Proof.
  apply (proj1 (multi_use_count_errors "concat" (Tensor 0) [] (Tensor 1) []
                  [])).
  - reflexivity.
  - reflexivity.
Defined.

Lemma fold_min_const (n : nat) (l : list nat) :
  Forall (fun k => k = n) l -> fold_left Nat.min l n = n.
Proof.
  induction 1 as [| k l -> _ IH]; cbn [fold_left]; [reflexivity |].
  rewrite Nat.min_id. exact IH.
Qed.

Lemma all_len_eq_tower_lists (n : nat) (towers : list (list nat)) :
  Forall (fun t => length t = n) towers ->
  all_len_eq n (tower_lists towers) = Ok true.
Proof.
  induction 1 as [| t towers Ht _ IH]; [reflexivity |].
  unfold tower_lists in *. cbn [map all_len_eq py_len bind].
  rewrite length_map, Ht, Nat.eqb_refl. exact IH.
Qed.

Lemma flat_map_flatten_tensors (f : list nat -> nat) (towers : list (list nat)) :
  flat_map flatten (map (fun t => Tensor (f t)) towers)
  = map (fun t => Tensor (f t)) towers.
Proof.
  induction towers as [| t towers IH]; [reflexivity |].
  cbn [map flat_map flatten app]. rewrite IH. reflexivity.
Qed.

(** What the "concat" strategy builds from towers given as lists over
    uses: the tensors of all towers, use by use. *)
Lemma concat_parts (n : nat) (t0 : list nat) (towers : list (list nat)) :
  Forall (fun t => length t = n) (t0 :: towers) ->
  flatten (PyTuple (py_zip (map items_of (tower_lists (t0 :: towers)))))
  = concat (map (fun u => map (fun t => Tensor (nth u t 0)) (t0 :: towers))
                (range n)).
Proof.
  intros Hall.
  assert (Hitems : map items_of (tower_lists (t0 :: towers))
                   = map (map Tensor) (t0 :: towers)).
  { unfold tower_lists. rewrite map_map. reflexivity. }
  rewrite Hitems. cbn [map py_zip].
  assert (Hn : fold_left Nat.min
                 (map (@length pyobj) (map (map Tensor) towers))
                 (length (map Tensor t0)) = n).
  { pose proof (proj1 (Forall_cons_iff _ _ _) Hall) as [Ht0 Hrest].
    rewrite length_map, Ht0. apply fold_min_const.
    rewrite !Forall_map. apply Forall_forall. intros t Ht.
    rewrite length_map. rewrite Forall_forall in Hrest. apply Hrest.
    exact Ht. }
  rewrite Hn. cbn [flatten]. rewrite flat_map_concat_map, map_map.
  f_equal. apply map_ext. intros u. cbn [flatten].
  rewrite (map_nth Tensor t0 0 u), map_map.
  rewrite (map_ext (fun x => nth u (map Tensor x) (Tensor 0))
                   (fun t => Tensor (nth u t 0)))
    by (intros t; apply (map_nth Tensor t 0 u)).
  cbn [flat_map flatten app map].
  rewrite (flat_map_flatten_tensors (fun t => nth u t 0) towers).
  reflexivity.
Qed.

Lemma partitioned_nonempty (l : list pyobj) :
  0 < length l -> partitioned l = Ok (PartitionedTensor l).
Proof. destruct l; cbn [length partitioned]; [lia | reflexivity]. Qed.

Lemma map_result_ok {A B : Type} (f : A -> result B) (g : A -> B)
    (l : list A) :
  Forall (fun x => f x = Ok (g x)) l -> map_result f l = Ok (map g l).
Proof.
  induction 1 as [| x l Hx _ IH]; [reflexivity |].
  cbn [map_result map]. rewrite Hx. cbn [bind]. rewrite IH. reflexivity.
Qed.

(** X26.  The order of the processed inputs.  For towers registered as lists
    over uses, all with [n] uses, [n] positive: under "concat" the single
    partitioned tensor holds [n] times the number of towers parts with the
    use index major, so that part [u * towers + t] is use [u] of tower [t];
    under "separate" there is one partitioned tensor per tower, holding
    that tower's uses in order; either way the number of uses is recorded.
    With no use at all, both strategies raise [ValueError], as there is
    nothing to partition. *)
Theorem multi_use_inputs_order :
  forall (n : nat) (nu : option nat) (t0 : list nat)
         (towers : list (list nat)),
    Forall (fun t => length t = n) (t0 :: towers) ->
    nu = None \/ nu = Some n ->
    (0 < n ->
     (exists parts : list pyobj,
         process_inputs "concat" nu (tower_lists (t0 :: towers))
         = Ok (PyTuple [PartitionedTensor parts], Some n) /\
         length parts = n * length (t0 :: towers) /\
         (forall u t : nat,
             u < n -> t < length (t0 :: towers) ->
             nth (u * length (t0 :: towers) + t) parts (Tensor 0)
             = Tensor (nth u (nth t (t0 :: towers) []) 0))) /\
     process_inputs "separate" nu (tower_lists (t0 :: towers))
     = Ok (PyTuple (map (fun t => PartitionedTensor (map Tensor t))
                        (t0 :: towers)), Some n)) /\
    (n = 0 ->
     process_inputs "concat" nu (tower_lists (t0 :: towers))
     = Raise ValueError /\
     process_inputs "separate" nu (tower_lists (t0 :: towers))
     = Raise ValueError).
Proof.
  intros n nu t0 towers Hall Hnu.
  assert (Hlen0 : length (items_of (PyList (map Tensor t0))) = n).
  { cbn [items_of]. rewrite length_map.
    exact (proj1 (proj1 (Forall_cons_iff _ _ _) Hall)). }
  assert (Hset : set_num_uses nu n = Ok (Some n)).
  { destruct Hnu as [-> | ->]; cbn [set_num_uses];
      rewrite ?Nat.eqb_refl; reflexivity. }
  assert (Hstart : forall S,
             process_inputs S nu (tower_lists (t0 :: towers))
             = if S =? "concat" then
                 merged <- partitioned
                             (flatten (PyTuple (py_zip (map items_of
                                (tower_lists (t0 :: towers)))))) ;;
                 Ok (PyTuple [merged], Some n)
               else if S =? "separate" then
                 inputs' <- map_result
                              (fun input_ => partitioned (items_of input_))
                              (tower_lists (t0 :: towers)) ;;
                 Ok (PyTuple inputs', Some n)
               else Raise ValueError).
  { intros S. unfold process_inputs.
    change (first (tower_lists (t0 :: towers)))
      with (@Ok pyobj (PyList (map Tensor t0))).
    cbn [bind is_sequence]. rewrite Hlen0, Hset. cbn [bind].
    rewrite (all_len_eq_tower_lists n (t0 :: towers) Hall). reflexivity. }
  assert (Hrows : Forall (fun l : list pyobj =>
                            length l = length (t0 :: towers))
                    (map (fun u => map (fun t => Tensor (nth u t 0))
                                       (t0 :: towers)) (range n))).
  { apply Forall_forall. intros l Hl.
    apply in_map_iff in Hl. destruct Hl as [u [<- _]].
    apply length_map. }
  assert (Hparts : length (concat (map (fun u =>
                      map (fun t => Tensor (nth u t 0)) (t0 :: towers))
                      (range n)))
                   = n * length (t0 :: towers)).
  { rewrite (length_concat_uniform (length (t0 :: towers))) by exact Hrows.
    rewrite length_map, length_range. reflexivity. }
  split.
  - intros Hn. split.
    + exists (concat (map (fun u => map (fun t => Tensor (nth u t 0))
                                        (t0 :: towers)) (range n))).
      split; [| split].
      * rewrite Hstart. cbn [String.eqb Ascii.eqb Bool.eqb].
        rewrite (concat_parts n t0 towers Hall).
        rewrite partitioned_nonempty; [reflexivity |].
        rewrite Hparts. cbn [length]. nia.
      * exact Hparts.
      * intros u t Hu Ht.
        rewrite (nth_concat_uniform (length (t0 :: towers))) by assumption.
        rewrite nth_map_range by exact Hu.
        rewrite nth_map_lt with (d' := []) by exact Ht. reflexivity.
    + rewrite Hstart. cbn [String.eqb Ascii.eqb Bool.eqb].
      rewrite (map_result_ok _ (fun o => PartitionedTensor (items_of o))).
      * cbn [bind]. unfold tower_lists. rewrite map_map. reflexivity.
      * unfold tower_lists. rewrite Forall_map.
        apply Forall_forall. intros t Ht. cbn [items_of].
        apply partitioned_nonempty. rewrite length_map.
        rewrite Forall_forall in Hall. rewrite (Hall t Ht). exact Hn.
  - intros Hz.
    assert (Ht0 : t0 = []).
    { apply length_zero_iff_nil. rewrite <- Hz.
      exact (proj1 (proj1 (Forall_cons_iff _ _ _) Hall)). }
    split.
    + rewrite Hstart. cbn [String.eqb Ascii.eqb Bool.eqb].
      rewrite (concat_parts n t0 towers Hall), Hz. reflexivity.
    + rewrite Hstart, Ht0. reflexivity.
Qed.

Lemma multi_use_inputs_order_witness :
  process_inputs "separate" None (tower_lists [[0; 1; 2]; [3; 4; 5]])
  = Ok (PyTuple (map (fun t => PartitionedTensor (map Tensor t))
                     [[0; 1; 2]; [3; 4; 5]]), Some 3).
Proof.
  assert (Hall : Forall (fun t : list nat => length t = 3)
                        [[0; 1; 2]; [3; 4; 5]]).
  { constructor; [reflexivity |]. constructor; [reflexivity |]. constructor. }
  assert (Hpos : 0 < 3) by lia.
  exact (proj2 (proj1 (multi_use_inputs_order 3 None [0; 1; 2] [[3; 4; 5]]
                         Hall (or_introl eq_refl)) Hpos)).
Defined.

End TowersMoreFacts.
